(** * rmfile: the matching core of [rmfile/core.py]

    A shallow embedding of the pattern sets ([TestSet] and its four
    subclasses), the chunked two-level hasher ([_GcidHasher]) and the
    evaluator ([TestSets]) of [rmfile/core.py], with the properties the
    specification states about them, and of the command [main] that loads
    the sets, walks the files and writes the rows learned. *)

From stdpp Require Import gmap strings list sorting.
From Stdlib Require Import ZArith Strings.Byte Ascii.

(** ** SHA-1 (FIPS 180-4), what [hashlib.sha1(data).digest()] computes.

    Words are 32-bit unsigned integers, kept in [Z] and reduced modulo
    [2^32] after every addition and rotation. *)
Module SHA1.

Local Open Scope Z_scope.

Definition w32 (x : Z) : Z := x mod 2 ^ 32.

Definition rotl (n x : Z) : Z :=
  w32 (Z.lor (Z.shiftl x n) (Z.shiftr x (32 - n))).

Definition add32 (x y : Z) : Z := w32 (x + y).

Definition byte_to_Z (b : byte) : Z := Z.of_N (Byte.to_N b).

Definition Z_to_byte (z : Z) : byte :=
  match Byte.of_N (Z.to_N (z mod 256)) with
  | Some b => b
  | None => x00
  end.

(** Big-endian encoding of the low [n] bytes of [z]. *)
Fixpoint be_bytes (n : nat) (z : Z) : list byte :=
  match n with
  | O => []
  | S n' => Z_to_byte (Z.shiftr z (8 * Z.of_nat n')) :: be_bytes n' z
  end.

(** The message followed by the byte 0x80, zero bytes up to 56 modulo 64,
    and the bit length as a 64-bit big-endian integer. *)
Definition pad (msg : list byte) : list byte :=
  let len := Z.of_nat (length msg) in
  let zeros := Z.to_nat ((55 - len) mod 64) in
  msg ++ x80 :: replicate zeros x00 ++ be_bytes 8 (8 * len).

Fixpoint be_words (fuel : nat) (bs : list byte) : list Z :=
  match fuel, bs with
  | S f, b0 :: b1 :: b2 :: b3 :: rest =>
      (Z.shiftl (byte_to_Z b0) 24 + Z.shiftl (byte_to_Z b1) 16
       + Z.shiftl (byte_to_Z b2) 8 + byte_to_Z b3) :: be_words f rest
  | _, _ => []
  end.

(** The message schedule, newest word first: [extend] adds
    [W(t) = rotl 1 (W(t-3) xor W(t-8) xor W(t-14) xor W(t-16))]. *)
Definition extend (rw : list Z) : list Z :=
  let w i := nth i rw 0 in
  rotl 1 (Z.lxor (Z.lxor (w 2%nat) (w 7%nat)) (Z.lxor (w 13%nat) (w 15%nat))) :: rw.

Definition schedule (block : list Z) : list Z :=
  rev (Nat.iter 64 extend (rev block)).

Definition f_t (t : nat) (b c d : Z) : Z :=
  if (t <? 20)%nat then Z.lor (Z.land b c) (Z.land (Z.lxor b 0xFFFFFFFF) d)
  else if (t <? 40)%nat then Z.lxor (Z.lxor b c) d
  else if (t <? 60)%nat then Z.lor (Z.lor (Z.land b c) (Z.land b d)) (Z.land c d)
  else Z.lxor (Z.lxor b c) d.

Definition k_t (t : nat) : Z :=
  if (t <? 20)%nat then 0x5A827999
  else if (t <? 40)%nat then 0x6ED9EBA1
  else if (t <? 60)%nat then 0x8F1BBCDC
  else 0xCA62C1D6.

Record state := State { ha : Z; hb : Z; hc : Z; hd : Z; he : Z }.

Definition init : state :=
  State 0x67452301 0xEFCDAB89 0x98BADCFE 0x10325476 0xC3D2E1F0.

Definition round (s : state) (tw : nat * Z) : state :=
  let '(t, w) := tw in
  let tmp := add32 (add32 (add32 (add32 (rotl 5 (ha s)) (f_t t (hb s) (hc s) (hd s)))
                                  (he s)) (k_t t)) w in
  State tmp (ha s) (rotl 30 (hb s)) (hc s) (hd s).

Definition compress (h : state) (block : list Z) : state :=
  let ws := schedule block in
  let s := fold_left round (combine (seq 0 80) ws) h in
  State (add32 (ha h) (ha s)) (add32 (hb h) (hb s)) (add32 (hc h) (hc s))
        (add32 (hd h) (hd s)) (add32 (he h) (he s)).

Fixpoint blocks (fuel : nat) (ws : list Z) : list (list Z) :=
  match fuel with
  | O => []
  | S f => match ws with
           | [] => []
           | _ => take 16 ws :: blocks f (drop 16 ws)
           end
  end.

Definition sha1 (msg : list byte) : list byte :=
  let p := pad msg in
  let ws := be_words (length p) p in
  let h := fold_left compress (blocks (length ws) ws) init in
  be_bytes 4 (ha h) ++ be_bytes 4 (hb h) ++ be_bytes 4 (hc h)
  ++ be_bytes 4 (hd h) ++ be_bytes 4 (he h).

End SHA1.

Definition sha1 := SHA1.sha1.

Definition hexdigit (n : N) : ascii :=
  if (n <? 10)%N then ascii_of_N (48 + n) else ascii_of_N (87 + n).

(** [bytes.hex()]: two lowercase hexadecimal digits per byte. *)
Fixpoint hex (bs : list byte) : string :=
  match bs with
  | [] => EmptyString
  | b :: bs' =>
      let n := Byte.to_N b in
      String (hexdigit (n / 16)) (String (hexdigit (n mod 16)) (hex bs'))
  end.

Definition bytes_of_string (s : string) : list byte := String.list_byte_of_string s.

(** ** Python strings

    A [str] is modelled by [string], a sequence of code points below 256;
    on that range [isspace], [lower] and [strip] are CPython's. *)

Definition between (lo hi n : N) : bool := ((lo <=? n) && (n <=? hi))%N.

(** [str.isspace] for one code point: U+0009..U+000D, U+001C..U+0020,
    U+0085 and U+00A0. *)
Definition isspace (c : ascii) : bool :=
  let n := N_of_ascii c in
  between 9 13 n || between 28 32 n || (n =? 133)%N || (n =? 160)%N.

(** [str.lower] for one code point: A..Z and the Latin-1 capitals
    U+00C0..U+00DE (all but the multiplication sign U+00D7) move up by 32. *)
Definition lower_char (c : ascii) : ascii :=
  let n := N_of_ascii c in
  if between 65 90 n || (between 192 222 n && negb (n =? 215)%N)
  then ascii_of_N (n + 32) else c.

Fixpoint lower (s : string) : string :=
  match s with
  | EmptyString => EmptyString
  | String c s' => String (lower_char c) (lower s')
  end.

Fixpoint lstrip (s : string) : string :=
  match s with
  | EmptyString => EmptyString
  | String c s' => if isspace c then lstrip s' else s
  end.

Fixpoint rstrip (s : string) : string :=
  match s with
  | EmptyString => EmptyString
  | String c s' =>
      match rstrip s' with
      | EmptyString => if isspace c then EmptyString else String c EmptyString
      | r => String c r
      end
  end.

(** [str.strip()] with no argument. *)
Definition strip (s : string) : string := rstrip (lstrip s).

(** [str.rfind(c)]: the index of the last occurrence, [None] for -1. *)
Fixpoint rfind (c : ascii) (s : string) : option nat :=
  match s with
  | EmptyString => None
  | String a s' =>
      match rfind c s' with
      | Some k => Some (S k)
      | None => if Ascii.eqb a c then Some O else None
      end
  end.

(** The slice [s[i:]]. *)
Fixpoint slice_from (i : nat) (s : string) : string :=
  match i, s with
  | S i', String _ s' => slice_from i' s'
  | _, _ => s
  end.

(** [os.path.basename] as [posixpath] has it:
    [i = p.rfind('/') + 1; return p[i:]]. *)
Definition basename (p : string) : string :=
  let i := match rfind "/"%char p with Some k => S k | None => O end in
  slice_from i p.

(** [sorted] on strings: ascending code-point order. *)
Definition sorted (l : list string) : list string := merge_sort String.le l.

(** ** Text files and paths *)

Definition LF : ascii := "010"%char.
Definition CR : ascii := "013"%char.

(** The line boundaries of [str.splitlines] below code point 256: LF, VT,
    FF, CR, FS, GS, RS and NEL. *)
Definition is_linebreak (c : ascii) : bool :=
  let n := N_of_ascii c in
  between 10 13 n || between 28 30 n || (n =? 133)%N.

(** [str.splitlines()]: the text is cut at every line boundary, CR LF
    counting as one, and no empty line is added after a final boundary.
    [after_cr] tells that the character before was a CR, so that an LF
    here belongs to the boundary already seen. *)
Fixpoint lines_from (after_cr : bool) (s : string) : list string :=
  match s with
  | EmptyString => []
  | String c s' =>
      if after_cr && Ascii.eqb c LF then lines_from false s'
      else if is_linebreak c then EmptyString :: lines_from (Ascii.eqb c CR) s'
      else match lines_from false s' with
           | [] => [String c EmptyString]
           | l :: ls => String c l :: ls
           end
  end.

Definition splitlines (s : string) : list string := lines_from false s.

(** Reading in text mode with universal newlines, as [Path.read_text]
    does: CR LF and a lone CR come out as LF. *)
Fixpoint translate_newlines (after_cr : bool) (s : string) : string :=
  match s with
  | EmptyString => EmptyString
  | String c s' =>
      if after_cr && Ascii.eqb c LF then translate_newlines false s'
      else if Ascii.eqb c CR then String LF (translate_newlines true s')
      else String c (translate_newlines false s')
  end.

(** [sep.join(l)]. *)
Fixpoint str_join (sep : string) (l : list string) : string :=
  match l with
  | [] => EmptyString
  | x :: l' =>
      match l' with
      | [] => x
      | _ => x +:+ sep +:+ str_join sep l'
      end
  end.

(** [os.path.join(a, b)] as [posixpath] has it: [b] alone when it starts
    with a separator, no separator added after an empty [a] or one that
    ends with it. *)
Definition startswith_sep (s : string) : bool :=
  match s with
  | String c _ => Ascii.eqb c "/"
  | EmptyString => false
  end.

Fixpoint endswith_sep (s : string) : bool :=
  match s with
  | EmptyString => false
  | String c s' =>
      match s' with
      | EmptyString => Ascii.eqb c "/"
      | _ => endswith_sep s'
      end
  end.

Definition path_join (a b : string) : string :=
  if startswith_sep b then b
  else if bool_decide (a = EmptyString) || endswith_sep a then a +:+ b
  else a +:+ "/" +:+ b.

(** ** Exceptions and effects *)

Inductive exn :=
| AssertionError (msg : string)
| OSError (path : string)
| KeyError (key : string)
| NotImplementedError.

Inductive result (A : Type) :=
| Ok (a : A)
| Raise (e : exn).
Arguments Ok {A} a.
Arguments Raise {A} e.

#[global] Instance result_ret : MRet result := @Ok.
#[global] Instance result_bind : MBind result := λ A B f m,
  match m with Ok a => f a | Raise e => Raise e end.

(** The calls the core makes to the operating system, in call order. *)
Inductive event :=
| Getsize (path : string)
| Open (path : string)
| Readinto (path : string).

(** A computation that may call the operating system: it extends the
    record of calls made so far and returns a value or raises. *)
Definition IO (A : Type) : Type := list event → list event * result A.

#[global] Instance IO_ret : MRet IO := λ A a tr, (tr, Ok a).
#[global] Instance IO_bind : MBind IO := λ A B f m tr,
  match m tr with
  | (tr', Ok a) => f a tr'
  | (tr', Raise e) => (tr', Raise e)
  end.

Definition raise {A} (e : exn) : IO A := λ tr, (tr, Raise e).
Definition lift {A} (r : result A) : IO A := λ tr, (tr, r).
Definition syscall (ev : event) : IO unit := λ tr, (tr ++ [ev], Ok tt).

(** A file as the core sees it: its bytes, whether it may be opened for
    reading, and the index (from 0) of the [readinto] call that fails, if
    one does. *)
Record file := {
  f_data : list byte;
  f_readable : bool;
  f_bad_read : option nat;
}.

(** What the core takes from outside the repository: the piece-size policy
    ([xlgcid.get_gcid_piece_size]), [io.DEFAULT_BUFFER_SIZE], and the file
    system, which no operation of the core changes. *)
Record platform := {
  get_gcid_piece_size : N → N;
  DEFAULT_BUFFER_SIZE : N;
  fs : gmap string file;
}.

(** [os.path.getsize]. *)
Definition getsize (E : platform) (path : string) : IO N :=
  _ ← syscall (Getsize path);
  match fs E !! path with
  | Some f => mret (N.of_nat (length (f_data f)))
  | None => raise (OSError path)
  end.

(** [open(path, 'rb')]. *)
Definition open (E : platform) (path : string) : IO file :=
  _ ← syscall (Open path);
  match fs E !! path with
  | Some f => if f_readable f then mret f else raise (OSError path)
  | None => raise (OSError path)
  end.

(** [fp.readinto(buf)] as call number [k] on a handle with [rest] still
    unread: the bytes that land in the buffer. A buffered reader over a
    regular file fills the buffer unless fewer bytes remain. *)
Definition readinto (path : string) (f : file) (k : nat) (buf_size : nat)
    (rest : list byte) : IO (list byte) :=
  _ ← syscall (Readinto path);
  if decide (f_bad_read f = Some k) then raise (OSError path)
  else mret (take buf_size rest).

(** ** Content hashers

    [ContentHasher] is the protocol of the source: a name, [update] and
    [digest]. A [hashlib] SHA-1 object is determined by the bytes fed to it
    so far: [m.update(a); m.update(b)] is [m.update(a + b)], and [digest]
    hashes what was fed. *)

Class ContentHasher (H : Type) := {
  name : H → string;
  update : H → list byte → H;
  digest : H → list byte;
}.

Record hashlib_sha1 := { fed : list byte }.

(** [hashlib.sha1(data)]; [hashlib.sha1()] is [hashlib_sha1_new []]. *)
Definition hashlib_sha1_new (data : list byte) : hashlib_sha1 := {| fed := data |}.

#[global] Instance hashlib_sha1_hasher : ContentHasher hashlib_sha1 := {|
  name _ := "sha1";
  update h buf := {| fed := fed h ++ buf |};
  digest h := sha1 (fed h);
|}.

Record _GcidHasher := { __isha1 : hashlib_sha1 }.

Definition _GcidHasher_new : _GcidHasher := {| __isha1 := hashlib_sha1_new [] |}.

#[global] Instance _GcidHasher_hasher : ContentHasher _GcidHasher := {|
  name _ := "gcid";
  update h buf := {| __isha1 := update (__isha1 h) (digest (hashlib_sha1_new buf)) |};
  digest h := digest (__isha1 h);
|}.

(** The two hashers a pattern set can ask for. *)
Inductive hasher :=
| PlainSha1 (h : hashlib_sha1)
| Gcid (h : _GcidHasher).

#[global] Instance hasher_hasher : ContentHasher hasher := {|
  name h := match h with PlainSha1 h' => name h' | Gcid h' => name h' end;
  update h buf :=
    match h with
    | PlainSha1 h' => PlainSha1 (update h' buf)
    | Gcid h' => Gcid (update h' buf)
    end;
  digest h := match h with PlainSha1 h' => digest h' | Gcid h' => digest h' end;
|}.

(** ** [TestContext] *)

Record TestContext := {
  path : string;
  hashs : gmap string string;
}.

Definition TestContext_new (p : string) : TestContext := {| path := p; hashs := ∅ |}.

(** ** [TestSet] and its subclasses *)

Inductive set_type := NameTestSet | INameTestSet | Sha1TestSet | GcidTestSet.

#[global] Instance set_type_eq_dec : EqDecision set_type.
Proof. solve_decision. Defined.

Module TestSet.

Record t := {
  cls : set_type;
  name : string;
  _dataset : gset string;
  _adding_rows : gset string;
}.

(** [TestSet._parpare_set]: strip every line, drop the empty string. *)
Definition base_parpare_set (lines : list string) : gset string :=
  list_to_set (strip <$> lines) ∖ {[ EmptyString ]}.

(** The overrides of [INameTestSet], [Sha1TestSet] and [GcidTestSet]
    lower-case what the base method returns. *)
Definition _parpare_set (c : set_type) (lines : list string) : gset string :=
  match c with
  | NameTestSet => base_parpare_set lines
  | INameTestSet | Sha1TestSet | GcidTestSet => set_map lower (base_parpare_set lines)
  end.

(** [TestSet.__init__], called through one of the four subclasses. *)
Definition new (c : set_type) (nm : string) (lines : list string) : t :=
  {| cls := c; name := nm; _dataset := _parpare_set c lines; _adding_rows := ∅ |}.

Definition adding_rows (ts : t) : list string := elements (_adding_rows ts).

Definition all_rows (ts : t) : list string :=
  sorted (elements (_dataset ts ∪ _adding_rows ts)).

(** [ctx.hashs[key]]. *)
Definition hashs_getitem (ctx : TestContext) (key : string) : result string :=
  match hashs ctx !! key with
  | Some v => Ok v
  | None => Raise (KeyError key)
  end.

Definition _read_value (ts : t) (ctx : TestContext) : result string :=
  match cls ts with
  | NameTestSet => Ok (basename (path ctx))
  | INameTestSet => Ok (lower (basename (path ctx)))
  | Sha1TestSet => v ← hashs_getitem ctx "sha1"; Ok (lower v)
  | GcidTestSet => v ← hashs_getitem ctx "gcid"; Ok (lower v)
  end.

Definition test (ts : t) (ctx : TestContext) : result bool :=
  value ← _read_value ts ctx;
  Ok (bool_decide (value ∈ _dataset ts)).

(** [add] changes [_adding_rows] only; when [_read_value] raises, the
    object is as it was. *)
Definition add (ts : t) (ctx : TestContext) : result t :=
  value ← _read_value ts ctx;
  if bool_decide (value ∈ _dataset ts) then Ok ts
  else Ok {| cls := cls ts; name := name ts; _dataset := _dataset ts;
             _adding_rows := {[ value ]} ∪ _adding_rows ts |}.

(** The object after [ts.add(ctx)] has run, whether it returned or raised. *)
Definition after_add (ts : t) (ctx : TestContext) : t :=
  match add ts ctx with
  | Ok ts' => ts'
  | Raise _ => ts
  end.

Definition is_test_content (ts : t) : bool :=
  match cls ts with
  | NameTestSet | INameTestSet => false
  | Sha1TestSet | GcidTestSet => true
  end.

Definition get_buffer_size (E : platform) (ts : t) (p : string) : IO (option N) :=
  match cls ts with
  | GcidTestSet => size ← getsize E p; mret (Some (get_gcid_piece_size E size))
  | _ => mret None
  end.

Definition get_content_hasher (ts : t) : result hasher :=
  match cls ts with
  | Sha1TestSet => Ok (PlainSha1 (hashlib_sha1_new []))
  | GcidTestSet => Ok (Gcid _GcidHasher_new)
  | _ => Raise NotImplementedError
  end.

End TestSet.

(** ** [TestSets], the evaluator *)

Module TestSets.

(** The evaluator holds the list it was given. The source also keeps two
    tuples built from it in [__init__]; they hold the same objects, and
    [is_test_content] depends on an object's class only, so at every moment
    they are the two filters below of the current list. The objects of the
    list are taken to be pairwise distinct, as [main] builds them. *)
Record t := { __tests_sets : list TestSet.t }.

Definition new (tests_sets : list TestSet.t) : t := {| __tests_sets := tests_sets |}.

Definition __metadata_tests_sets (tss : t) : list TestSet.t :=
  filter (λ ts, ¬ TestSet.is_test_content ts) (__tests_sets tss).

Definition __content_tests_sets (tss : t) : list TestSet.t :=
  filter (λ ts, TestSet.is_test_content ts) (__tests_sets tss).

(** [bz for bz in ... if bz]: [None] and [0] are dropped. *)
Definition truthy (bz : option N) : option N :=
  match bz with
  | Some n => if (n =? 0)%N then None else Some n
  | None => None
  end.

(** Lines 145 to 150: the size of the read buffer. *)
Definition choose_buf_size (E : platform) (hints : list (option N)) : result N :=
  let buf_sizes := omap truthy hints in
  match buf_sizes with
  | b :: _ =>
      if bool_decide (length buf_sizes = 1) then Ok b
      else Raise (AssertionError "TODO")
  | [] => Ok (DEFAULT_BUFFER_SIZE E)
  end.

(** Lines 157 and 158: [while read_size := fp.readinto(buf)], every hasher
    updated with the bytes read. Each turn but the last consumes at least
    one byte, so [S (length rest)] turns of [fuel] are never used up. *)
Fixpoint read_loop (fuel : nat) (p : string) (fp : file) (buf_size k : nat)
    (rest : list byte) (hashers : list hasher) : IO (list hasher) :=
  match fuel with
  | O => mret hashers
  | S fuel' =>
      chunk ← readinto p fp k buf_size rest;
      match chunk with
      | [] => mret hashers
      | _ => read_loop fuel' p fp buf_size (S k) (drop buf_size rest)
               ((λ h, update h chunk) <$> hashers)
      end
  end.

(** [ctx.hashs[h.name] = h.digest().hex().lower()]. *)
Definition store_digest (ctx : TestContext) (h : hasher) : TestContext :=
  {| path := path ctx;
     hashs := <[ name h := lower (hex (digest h)) ]> (hashs ctx) |}.

Definition __context_fill_hashs (E : platform) (tss : t) (ctx : TestContext)
    : IO TestContext :=
  match __content_tests_sets tss with
  | [] => mret ctx
  | tss' =>
      hints ← mapM (λ ts, TestSet.get_buffer_size E ts (path ctx)) tss';
      buf_size ← lift (choose_buf_size E hints);
      hashers ← lift (mapM TestSet.get_content_hasher tss');
      fp ← open E (path ctx);
      hashers' ← read_loop (S (length (f_data fp))) (path ctx) fp
                   (N.to_nat buf_size) 0 (f_data fp) hashers;
      mret (foldl store_digest ctx hashers')
  end.

(** [all(ts.test(ctx) for ts in l)]: stops at the first [False]. *)
Fixpoint all_test (ctx : TestContext) (l : list TestSet.t) : result bool :=
  match l with
  | [] => Ok true
  | ts :: l' => b ← TestSet.test ts ctx; if b : bool then all_test ctx l' else Ok false
  end.

Definition test (E : platform) (tss : t) (p : string) : IO bool :=
  let ctx := TestContext_new p in
  match __tests_sets tss with
  | [] => raise (AssertionError EmptyString)
  | _ =>
      m ← lift (all_test ctx (__metadata_tests_sets tss));
      if negb m then mret false
      else
        ctx' ← __context_fill_hashs E tss ctx;
        c ← lift (all_test ctx' (__content_tests_sets tss));
        if negb c then mret false else mret true
  end.

(** [[ts.add(ctx) for ts in l]]: the objects are updated one after the
    other; when one raises, those before it keep their update. *)
Fixpoint add_each (ctx : TestContext) (l : list TestSet.t)
    : list TestSet.t * result unit :=
  match l with
  | [] => ([], Ok tt)
  | ts :: l' =>
      match TestSet.add ts ctx with
      | Raise e => (ts :: l', Raise e)
      | Ok ts' => let '(l'', r) := add_each ctx l' in (ts' :: l'', r)
      end
  end.

(** [TestSets.add] returns nothing; the result is the evaluator after the
    call, the record of system calls, and whether the call raised. *)
Definition add (E : platform) (tss : t) (p : string) (tr : list event)
    : t * list event * result unit :=
  let ctx := TestContext_new p in
  match __tests_sets tss with
  | [] => (tss, tr, Raise (AssertionError EmptyString))
  | _ =>
      match __context_fill_hashs E tss ctx tr with
      | (tr', Raise e) => (tss, tr', Raise e)
      | (tr', Ok ctx') =>
          let '(l, r) := add_each ctx' (__tests_sets tss) in
          ({| __tests_sets := l |}, tr', r)
      end
  end.

End TestSets.

(** ** [main], the command *)

(** The platform of the core with another file system: [main] changes the
    file system by sending files to the trash. *)
Definition with_fs (E : platform) (m : gmap string file) : platform :=
  {| get_gcid_piece_size := get_gcid_piece_size E;
     DEFAULT_BUFFER_SIZE := DEFAULT_BUFFER_SIZE E;
     fs := m |}.

(** Line 262: the text written to the file of a set. *)
Definition rows_text (ts : TestSet.t) : string :=
  str_join (String LF EmptyString) (TestSet.all_rows ts).

Module Main.

(** The arguments of the command. *)
Record options := {
  location : string;
  name : option string;
  iname : option string;
  sha1 : option string;
  gcid : option string;
  from_dir : option string;
  dry_run : bool;
  add : bool;
}.

(** What [main] takes from outside the repository: [os.path.isfile], the
    text a file holds once decoded as UTF-8 (an exception when it cannot be
    read or decoded), the directories [os.walk] yields with their file
    names, [send2trash.send2trash] as a change of the file system that may
    raise, and whether [atomicwrites.atomic_write] raises. *)
Record host := {
  isfile : string → bool;
  file_text : string → result string;
  walk : string → list (string * list string);
  send2trash : gmap string file → list string → gmap string file * option exn;
  atomic_write : string → string → option exn;
}.

(** What [main] does to the outside, in order. *)
Inductive effect :=
| Echo (msg : string)
| EchoErr (msg : string)
| EchoExn (e : exn)
| RichPrint (markup : string)
| Send2trash (paths : list string)
| AtomicWrite (file text : string).

(** [pathlib.Path(value).read_text('utf-8')]. *)
Definition read_text (H : host) (value : string) : result string :=
  text ← file_text H value; Ok (translate_newlines false text).

(** Lines 206 to 215; the result is [test_sets] after the call. *)
Definition load_from (H : host) (value : option string) (set_type : set_type)
    (by_file : bool) (test_sets : list TestSet.t) : result (list TestSet.t) :=
  match value with
  | None | Some EmptyString => Ok test_sets
  | Some value =>
      if isfile H value then
        text ← read_text H value;
        Ok (test_sets ++ [TestSet.new set_type value (splitlines text)])
      else if by_file then Ok (test_sets ++ [TestSet.new set_type value []])
      else Ok test_sets
  end.

(** Lines 204 to 226. *)
Definition load_sets (H : host) (o : options) : result (list TestSet.t) :=
  s ← load_from H (name o) NameTestSet true [];
  s ← load_from H (iname o) INameTestSet true s;
  s ← load_from H (sha1 o) Sha1TestSet true s;
  s ← load_from H (gcid o) GcidTestSet true s;
  match from_dir o with
  | None | Some EmptyString => Ok s
  | Some d =>
      s ← load_from H (Some (path_join d "name.txt")) NameTestSet false s;
      s ← load_from H (Some (path_join d "iname.txt")) INameTestSet false s;
      s ← load_from H (Some (path_join d "sha1.txt")) Sha1TestSet false s;
      load_from H (Some (path_join d "gcid.txt")) GcidTestSet false s
  end.

(** Lines 234, 236 to 238: the paths visited, in order. *)
Definition walked (H : host) (o : options) : list string :=
  let walker :=
    if isfile H (location o) then [(EmptyString, [location o])]
    else walk H (location o) in
  '(dirpath, filenames) ← walker; path_join dirpath <$> filenames.

(** The state of the loop: the evaluator, [to_remove], the file system,
    the system calls of the core and the effects so far. *)
Record run := {
  sets : TestSets.t;
  to_remove : list string;
  files : gmap string file;
  sys : list event;
  out : list effect;
}.

(** Lines 239 to 250: one file. *)
Definition visit (H : host) (E : platform) (o : options) (st : run) (path : string) : run :=
  let E' := with_fs E (files st) in
  if add o then
    let '(tss', tr', r) := TestSets.add E' (sets st) path (sys st) in
    {| sets := tss'; to_remove := to_remove st; files := files st; sys := tr';
       out := out st ++ match r with Raise e => [EchoExn e] | Ok _ => [] end |}
  else
    match TestSets.test E' (sets st) path (sys st) with
    | (tr', Raise e) =>
        {| sets := sets st; to_remove := to_remove st; files := files st; sys := tr';
           out := out st ++ [EchoExn e] |}
    | (tr', Ok false) =>
        {| sets := sets st; to_remove := to_remove st; files := files st; sys := tr';
           out := out st |}
    | (tr', Ok true) =>
        if dry_run o then
          {| sets := sets st; to_remove := to_remove st; files := files st; sys := tr';
             out := out st ++ [Echo ("Remove: " +:+ path)] |}
        else
          let '(files', r) := send2trash H (files st) [path] in
          {| sets := sets st; to_remove := to_remove st ++ [path]; files := files';
             sys := tr';
             out := out st ++ [Echo ("Remove: " +:+ path); Send2trash [path]]
                      ++ match r with Some e => [EchoExn e] | None => [] end |}
    end.

(** Lines 251 and 252; the exception, if any, is the one [send2trash]
    raised. *)
Definition trash_batch (H : host) (o : options) (st : run) : run * option exn :=
  match to_remove st with
  | [] => (st, None)
  | _ =>
      if dry_run o then (st, None)
      else
        let '(files', r) := send2trash H (files st) (to_remove st) in
        ({| sets := sets st; to_remove := to_remove st; files := files'; sys := sys st;
            out := out st ++ [Send2trash (to_remove st)] |}, r)
  end.

(** Lines 254 to 263: the rows added are shown and, unless [--dry-run],
    the file of the set is rewritten. *)
Fixpoint persist (H : host) (o : options) (l : list TestSet.t) (out : list effect)
    : list effect * option exn :=
  match l with
  | [] => (out, None)
  | ts :: l' =>
      match TestSet.adding_rows ts with
      | [] => persist H o l' out
      | adding_rows =>
          let out1 :=
            out ++ RichPrint ("--- Rows added to [green] " +:+ TestSet.name ts
                                +:+ " [/green] ---")
                :: ((λ row, Echo ("  " +:+ row)) <$> adding_rows) in
          if dry_run o then persist H o l' out1
          else
            let text := rows_text ts in
            let out2 := out1 ++ [AtomicWrite (TestSet.name ts) text] in
            match atomic_write H (TestSet.name ts) text with
            | Some e => (out2, Some e)
            | None => persist H o l' out2
            end
      end
  end.

(** How a run ends: the sets, the file system the loop left (the pattern
    files written afterwards are effects), the system calls of the core,
    the effects, and the exception that escaped, if one did. *)
Record outcome := {
  final_sets : list TestSet.t;
  final_files : gmap string file;
  final_sys : list event;
  final_out : list effect;
  raised : option exn;
}.

Definition main (H : host) (E : platform) (o : options) : outcome :=
  match load_sets H o with
  | Raise e =>
      {| final_sets := []; final_files := fs E; final_sys := []; final_out := [];
         raised := Some e |}
  | Ok [] =>
      {| final_sets := []; final_files := fs E; final_sys := [];
         final_out := [EchoErr "No pattern input."]; raised := None |}
  | Ok test_sets =>
      let tss := TestSets.new test_sets in
      let st0 := {| sets := tss; to_remove := []; files := fs E; sys := []; out := [] |} in
      let '(st, r) := trash_batch H o (foldl (visit H E o) st0 (walked H o)) in
      let escapes := match r with
                     | None | Some (OSError _) => None
                     | Some e => Some e
                     end in
      match escapes with
      | Some e =>
          {| final_sets := TestSets.__tests_sets (sets st); final_files := files st;
             final_sys := sys st; final_out := out st; raised := Some e |}
      | None =>
          let '(out', r') := persist H o (TestSets.__tests_sets (sets st)) (out st) in
          {| final_sets := TestSets.__tests_sets (sets st); final_files := files st;
             final_sys := sys st; final_out := out'; raised := r' |}
      end
  end.

(** The calls of [send2trash] and the files written, in order. *)
Definition trash_calls (out : list effect) : list (list string) :=
  omap (λ e, match e with Send2trash ps => Some ps | _ => None end) out.

Definition writes (out : list effect) : list (string * string) :=
  omap (λ e, match e with AtomicWrite f t => Some (f, t) | _ => None end) out.

End Main.

(** ** The digests as the specification words them

    Piece [i] of a file holds its bytes from [i * P] up to [(i + 1) * P];
    there are [ceil (L / P)] pieces, none for an empty file. *)
Definition pieces (P : nat) (data : list byte) : list (list byte) :=
  (λ i, take P (drop (i * P) data)) <$> seq 0 ((length data + P - 1) / P).

(** The chunked two-level digest as the specification words it. *)
Definition gcid_of_pieces (ps : list (list byte)) : list byte :=
  sha1 (concat (sha1 <$> ps)).

(** The digest map the specification expects for a file: plain SHA-1 of
    its bytes, and the chunked digest over pieces of the size the policy
    gives for its length. *)
Definition spec_digests (E : platform) (data : list byte) : gmap string string :=
  let P := N.to_nat (get_gcid_piece_size E (N.of_nat (length data))) in
  {[ "sha1" := hex (sha1 data); "gcid" := hex (gcid_of_pieces (pieces P data)) ]}.

(** ** Notions used to state what the evaluator does *)

Definition is_gcid (ts : TestSet.t) : bool :=
  match TestSet.cls ts with
  | GcidTestSet => true
  | _ => false
  end.

(** What [get_buffer_size] returns for a file of [size] bytes. *)
Definition hint_of (E : platform) (size : N) (ts : TestSet.t) : option N :=
  if is_gcid ts then Some (get_gcid_piece_size E size) else None.

(** What [get_content_hasher] returns for a content-based set. *)
Definition initial_hasher (ts : TestSet.t) : hasher :=
  if is_gcid ts then Gcid _GcidHasher_new else PlainSha1 (hashlib_sha1_new []).

(** A hasher after it was updated with every piece of [data] in turn. *)
Definition feed (B : nat) (data : list byte) (h : hasher) : hasher :=
  foldl update h (pieces B data).

(** The result of a computation does not depend on the calls recorded
    before it started, and it only appends to the record. *)
Definition writer {A} (m : IO A) : Prop :=
  ∀ tr, m tr = (tr ++ (m []).1, (m []).2).

(** A path that [open(path, 'rb')] accepts. *)
Definition can_open (E : platform) (p : string) : Prop :=
  ∃ f, fs E !! p = Some f ∧ f_readable f = true.

(** A value normalised as [_parpare_set] normalises a seed line. *)
Definition seed_form (c : set_type) (v : string) : string :=
  if decide (c = NameTestSet) then strip v else lower (strip v).

(** A string without line boundary. *)
Definition plain (v : string) : Prop :=
  ∀ c, c ∈ String.list_ascii_of_string v → is_linebreak c = false.

(** The set a later run builds from the text written for [ts] (lines 210
    and 215). *)
Definition reload (ts : TestSet.t) : TestSet.t :=
  TestSet.new (TestSet.cls ts) (TestSet.name ts)
    (splitlines (translate_newlines false (rows_text ts))).





(** An option of the command line that was given a non-empty value. *)
Definition given (value : option string) : bool :=
  match value with
  | Some (String _ _) => true
  | _ => false
  end.

(** The state of the loop of [main] when it reaches the path number [i]
    of the walk (from 0), the sets [l] being loaded. *)
Definition loop_state (H : Main.host) (E : platform) (o : Main.options)
    (l : list TestSet.t) (i : nat) : Main.run :=
  foldl (Main.visit H E o)
    {| Main.sets := TestSets.new l; Main.to_remove := []; Main.files := fs E;
       Main.sys := []; Main.out := [] |}
    (take i (Main.walked H o)).

(** Whether [tss.test(path)] returned [True] for the path number [i] of
    the walk when the loop reached it, on the file system as the loop had
    left it by then. *)
Definition matches_at (H : Main.host) (E : platform) (o : Main.options)
    (l : list TestSet.t) (i : nat) : bool :=
  match Main.walked H o !! i with
  | Some p =>
      match (TestSets.test (with_fs E (Main.files (loop_state H E o l i)))
               (TestSets.new l) p (Main.sys (loop_state H E o l i))).2 with
      | Ok true => true
      | _ => false
      end
  | None => false
  end.

(** The paths of the walk for which the test returned [True], in the
    order of the walk. *)
Definition matched (H : Main.host) (E : platform) (o : Main.options)
    (l : list TestSet.t) : list string :=
  omap (λ i, if matches_at H E o l i then Main.walked H o !! i else None)
       (seq 0 (length (Main.walked H o))).












(** ** Sample data *)

Definition hello : file :=
  {| f_data := bytes_of_string "hello world"; f_readable := true; f_bad_read := None |}.

Definition locked : file :=
  {| f_data := bytes_of_string "hello world"; f_readable := false; f_bad_read := None |}.

Definition tmp_files : gmap string file :=
  {[ "/tmp/abc.txt" := hello; "/tmp/locked.bin" := locked ]}.

(** Pieces of four bytes, so that a short file has several. *)
Definition small_pieces : platform :=
  {| get_gcid_piece_size := λ _, 4%N; DEFAULT_BUFFER_SIZE := 8192%N; fs := tmp_files |}.

(** Pieces of 256 KiB for every length. *)
Definition large_pieces : platform :=
  {| get_gcid_piece_size := λ _, 262144%N; DEFAULT_BUFFER_SIZE := 8192%N; fs := tmp_files |}.

Definition names : TestSet.t :=
  TestSet.new NameTestSet "name.txt" ["abc.txt"; EmptyString; "  def.txt  "].

Definition sha1s : TestSet.t :=
  TestSet.new Sha1TestSet "sha1.txt" ["2AAE6C35C94FCFB415DBE95F408B9CE91EE846ED"].

Definition gcids : TestSet.t :=
  TestSet.new GcidTestSet "gcid.txt" ["5c7fa77d13b7ea105740456b91a2d03043a91a12"].

Definition gcids_a : TestSet.t :=
  TestSet.new GcidTestSet "a/gcid.txt" ["67becf85308acf0261750da1075681ee5c412f05"].

Definition gcids_b : TestSet.t :=
  TestSet.new GcidTestSet "b/gcid.txt" ["67BECF85308ACF0261750DA1075681EE5C412F05"].

(** A file whose second [readinto] fails. *)
Definition flaky : file :=
  {| f_data := bytes_of_string "hello world"; f_readable := true; f_bad_read := Some 1 |}.

Definition flaky_pieces : platform :=
  {| get_gcid_piece_size := λ _, 4%N; DEFAULT_BUFFER_SIZE := 8192%N;
     fs := {[ "/tmp/flaky.bin" := flaky ]} |}.

(** A policy that gives no piece size. *)
Definition no_pieces : platform :=
  {| get_gcid_piece_size := λ _, 0%N; DEFAULT_BUFFER_SIZE := 8%N; fs := tmp_files |}.

Definition empty_names : TestSet.t := TestSet.new NameTestSet "missing.txt" [].

(** A pattern file with a CR LF and an LF line end. *)
Definition pattern_text : string :=
  "abc.txt" +:+ String CR (String LF ("  def.txt  " +:+ String LF EmptyString)).

(** A host with two pattern files and one directory of two files, where
    sending to the trash removes the files and never fails. *)
Definition sample_host : Main.host :=
  {| Main.isfile := λ p, String.eqb p "name.txt" || String.eqb p "pat/gcid.txt";
     Main.file_text := λ _, Ok pattern_text;
     Main.walk := λ _, [("/tmp", ["abc.txt"; "locked.bin"])];
     Main.send2trash := λ m ps, (foldr delete m ps, None);
     Main.atomic_write := λ _ _, None |}.

Definition remove_by_name : Main.options :=
  {| Main.location := "/tmp"; Main.name := Some "name.txt"; Main.iname := None;
     Main.sha1 := None; Main.gcid := None; Main.from_dir := None;
     Main.dry_run := false; Main.add := false |}.

Definition remove_by_missing : Main.options :=
  {| Main.location := "/tmp"; Main.name := Some "missing.txt"; Main.iname := None;
     Main.sha1 := None; Main.gcid := None; Main.from_dir := None;
     Main.dry_run := false; Main.add := false |}.





(** * Properties *)

(** ** SHA-1 on the test vectors of FIPS 180 *)

Example sha1_empty :
  hex (sha1 []) = "da39a3ee5e6b4b0d3255bfef95601890afd80709"%string.
Proof. vm_compute. reflexivity. Qed.

Example sha1_abc :
  hex (sha1 (bytes_of_string "abc")) = "a9993e364706816aba3e25717850c26c9cd0d89d"%string.
Proof. vm_compute. reflexivity. Qed.

Example sha1_two_blocks :
  hex (sha1 (bytes_of_string "abcdbcdecdefdefgefghfghighijhijkijkljklmklmnlmnomnopnopq"))
  = "84983e441c3bd26ebaae4aa1f95129e5e54670f1"%string.
Proof. vm_compute. reflexivity. Qed.


#[global] Opaque SHA1.sha1 sha1.

(** ** Strings *)

Lemma isspace_lower_char c : isspace (lower_char c) = isspace c.
Proof. destruct c as [[] [] [] [] [] [] [] []]; reflexivity. Qed.

Lemma lower_char_idemp c : lower_char (lower_char c) = lower_char c.
Proof. destruct c as [[] [] [] [] [] [] [] []]; reflexivity. Qed.

Lemma lower_idemp s : lower (lower s) = lower s.
Proof. induction s as [|c s IH]; simpl; [done|]. by rewrite lower_char_idemp, IH. Qed.

Lemma lower_empty s : lower s = EmptyString ↔ s = EmptyString.
Proof. destruct s; simpl; split; congruence. Qed.

Lemma lower_lstrip s : lower (lstrip s) = lstrip (lower s).
Proof.
  induction s as [|c s IH]; simpl; [done|].
  rewrite isspace_lower_char. by destruct (isspace c).
Qed.

Lemma lower_rstrip s : lower (rstrip s) = rstrip (lower s).
Proof.
  induction s as [|c s IH]; simpl; [done|].
  rewrite <- IH, isspace_lower_char.
  destruct (rstrip s); simpl; [by destruct (isspace c)|done].
Qed.

Lemma lower_strip s : lower (strip s) = strip (lower s).
Proof. unfold strip. by rewrite lower_rstrip, lower_lstrip. Qed.

Lemma hex_byte_lower b :
  lower_char (hexdigit (Byte.to_N b / 16)) = hexdigit (Byte.to_N b / 16)
  ∧ lower_char (hexdigit (Byte.to_N b mod 16)) = hexdigit (Byte.to_N b mod 16).
Proof. destruct b; split; reflexivity. Qed.

Lemma lower_hex bs : lower (hex bs) = hex bs.
Proof.
  induction bs as [|b bs IH]; [done|].
  cbn [hex lower]. destruct (hex_byte_lower b) as [-> ->]. by rewrite IH.
Qed.

(** ** Pattern sets *)

Lemma elem_of_base_parpare_set v lines :
  v ∈ TestSet.base_parpare_set lines ↔
  ∃ line, line ∈ lines ∧ strip line ≠ EmptyString ∧ v = strip line.
Proof.
  unfold TestSet.base_parpare_set.
  rewrite elem_of_difference, elem_of_list_to_set, list_elem_of_fmap, elem_of_singleton.
  split.
  - intros [(line & -> & ?) ?]. eauto.
  - intros (line & ? & ? & ->). eauto.
Qed.

Lemma elem_of_parpare_set c v lines :
  v ∈ TestSet._parpare_set c lines ↔
  ∃ line, line ∈ lines ∧ strip line ≠ EmptyString ∧
          v = if decide (c = NameTestSet) then strip line else lower (strip line).
Proof.
  destruct c; simpl; rewrite ?elem_of_map; try apply elem_of_base_parpare_set.
  all: split.
  all: try (intros (x & -> & (line & ? & ? & ->)%elem_of_base_parpare_set); by eauto).
  all: intros (line & ? & ? & ->); exists (strip line); split; [done|];
    apply elem_of_base_parpare_set; eauto.
Qed.

Lemma elem_of_parpare_set_lower c v lines :
  c ≠ NameTestSet →
  v ∈ TestSet._parpare_set c lines ↔
  ∃ line, line ∈ lines ∧ strip line ≠ EmptyString ∧ v = lower (strip line).
Proof.
  intros Hc. rewrite elem_of_parpare_set.
  split; intros (line & ? & ? & Hv); exists line; by rewrite decide_False in *.
Qed.

Lemma parpare_set_lower c lines :
  c ≠ NameTestSet →
  TestSet._parpare_set c (lower <$> lines) = TestSet._parpare_set c lines.
Proof.
  intros Hc. apply set_eq. intros v. rewrite !(elem_of_parpare_set_lower c) by done.
  split.
  - intros (line & (x & -> & Hx)%list_elem_of_fmap & Hne & ->).
    exists x. rewrite <- lower_strip, lower_idemp. split; [done|]. split; [|done].
    intros Hs. apply Hne. by rewrite <- lower_strip, Hs.
  - intros (line & Hin & Hne & ->). exists (lower line).
    split; [by apply list_elem_of_fmap_2|].
    rewrite <- lower_strip, lower_idemp. split; [|done].
    intros Hs. apply Hne. by apply lower_empty.
Qed.

Lemma new_lower c nm lines :
  c ≠ NameTestSet → TestSet.new c nm (lower <$> lines) = TestSet.new c nm lines.
Proof. intros Hc. unfold TestSet.new. by rewrite parpare_set_lower. Qed.

Lemma add_dataset ts ctx ts' :
  TestSet.add ts ctx = Ok ts' →
  TestSet.cls ts' = TestSet.cls ts ∧ TestSet.name ts' = TestSet.name ts
  ∧ TestSet._dataset ts' = TestSet._dataset ts.
Proof.
  unfold TestSet.add. destruct (TestSet._read_value ts ctx) as [v|e]; simpl; [|done].
  case_bool_decide; intros [= <-]; done.
Qed.

Lemma add_disjoint ts ctx ts' :
  TestSet.add ts ctx = Ok ts' →
  TestSet._dataset ts ## TestSet._adding_rows ts →
  TestSet._dataset ts' ## TestSet._adding_rows ts'.
Proof.
  unfold TestSet.add. destruct (TestSet._read_value ts ctx) as [v|e]; simpl; [|done].
  case_bool_decide as Hv; intros [= <-]; simpl; [done|]. intros Hdisj.
  apply disjoint_union_r. split; [by apply disjoint_singleton_r|done].
Qed.

Lemma after_add_disjoint ts ctx :
  TestSet._dataset ts ## TestSet._adding_rows ts →
  TestSet._dataset (TestSet.after_add ts ctx) ## TestSet._adding_rows (TestSet.after_add ts ctx).
Proof.
  unfold TestSet.after_add. destruct (TestSet.add ts ctx) eqn:H; [|done].
  by apply add_disjoint with (ctx := ctx).
Qed.

Lemma foldl_after_add_disjoint ctxs ts :
  TestSet._dataset ts ## TestSet._adding_rows ts →
  TestSet._dataset (foldl TestSet.after_add ts ctxs) ## TestSet._adding_rows (foldl TestSet.after_add ts ctxs).
Proof.
  revert ts. induction ctxs as [|ctx ctxs IH]; intros ts H; simpl; [done|].
  apply IH. by apply after_add_disjoint.
Qed.

Lemma after_add_cls ts ctx : TestSet.cls (TestSet.after_add ts ctx) = TestSet.cls ts.
Proof.
  unfold TestSet.after_add. destruct (TestSet.add ts ctx) eqn:H; [|done].
  by apply add_dataset in H as [? _].
Qed.

Lemma read_value_cls ts1 ts2 ctx :
  TestSet.cls ts1 = TestSet.cls ts2 →
  TestSet._read_value ts1 ctx = TestSet._read_value ts2 ctx.
Proof. unfold TestSet._read_value. by intros ->. Qed.

Lemma after_add_unfold ts ctx :
  TestSet.after_add ts ctx =
  match TestSet._read_value ts ctx with
  | Ok v =>
      if bool_decide (v ∈ TestSet._dataset ts) then ts
      else {| TestSet.cls := TestSet.cls ts; TestSet.name := TestSet.name ts;
              TestSet._dataset := TestSet._dataset ts;
              TestSet._adding_rows := {[ v ]} ∪ TestSet._adding_rows ts |}
  | Raise _ => ts
  end.
Proof.
  unfold TestSet.after_add, TestSet.add.
  destruct (TestSet._read_value ts ctx) as [v|e]; simpl; [|done].
  by case_bool_decide.
Qed.

Lemma after_add_idemp ts ctx : TestSet.after_add (TestSet.after_add ts ctx) ctx = TestSet.after_add ts ctx.
Proof.
  rewrite (after_add_unfold (TestSet.after_add ts ctx)).
  rewrite (read_value_cls _ ts ctx (after_add_cls ts ctx)).
  rewrite (after_add_unfold ts ctx).
  destruct (TestSet._read_value ts ctx) as [v|e]; [|done].
  destruct (decide (v ∈ TestSet._dataset ts)) as [Hv|Hv].
  - by rewrite !(bool_decide_eq_true_2 _ Hv).
  - rewrite !(bool_decide_eq_false_2 _ Hv).
    cbn [TestSet._dataset TestSet.cls TestSet.name TestSet._adding_rows].
    rewrite ?(bool_decide_eq_false_2 _ Hv). f_equal.
    by rewrite (assoc_L (∪)), (idemp_L (∪)).
Qed.

Lemma StronglySorted_strict (l : list string) :
  StronglySorted String.le l → NoDup l → StronglySorted (strict String.le) l.
Proof.
  induction 1 as [|x l Hs IH Hx]; intros Hnd; constructor.
  - apply IH. by apply NoDup_cons_1_2 in Hnd.
  - apply NoDup_cons_1_1 in Hnd.
    rewrite Forall_forall in Hx |- *. intros y Hy. split; [by apply Hx|].
    intros Hyx. assert (x = y) as -> by (apply (anti_symm String.le); auto). done.
Qed.

Lemma sorted_elem_of l v : v ∈ sorted l ↔ v ∈ l.
Proof. unfold sorted. by rewrite merge_sort_Permutation. Qed.

Lemma sorted_NoDup l : NoDup l → NoDup (sorted l).
Proof. unfold sorted. by rewrite merge_sort_Permutation. Qed.

Lemma sorted_StronglySorted l : NoDup l → StronglySorted (strict String.le) (sorted l).
Proof.
  intros H. apply StronglySorted_strict; [|by apply sorted_NoDup].
  apply StronglySorted_merge_sort; apply _.
Qed.

Lemma read_value_metadata ts p :
  ¬ TestSet.is_test_content ts →
  ∃ v, ∀ hs, TestSet._read_value ts {| path := p; hashs := hs |} = Ok v.
Proof.
  unfold TestSet.is_test_content, TestSet._read_value.
  destruct (TestSet.cls ts); simpl; intros H; try (by destruct H); eauto.
Qed.

Lemma test_metadata ts p :
  ¬ TestSet.is_test_content ts →
  ∃ b, ∀ hs, TestSet.test ts {| path := p; hashs := hs |} = Ok b.
Proof.
  intros [v Hv]%(read_value_metadata _ p).
  exists (bool_decide (v ∈ TestSet._dataset ts)). intros hs.
  unfold TestSet.test. by rewrite (Hv hs).
Qed.

Lemma test_metadata_any_hashs ts p hs1 hs2 :
  ¬ TestSet.is_test_content ts →
  TestSet.test ts {| path := p; hashs := hs1 |} = TestSet.test ts {| path := p; hashs := hs2 |}.
Proof. intros [b Hb]%(test_metadata _ p). by rewrite !Hb. Qed.

Lemma read_value_content ts ctx :
  TestSet.is_test_content ts →
  TestSet._read_value ts ctx
  = (v ← TestSet.hashs_getitem ctx (name (initial_hasher ts)); Ok (lower v)).
Proof.
  unfold TestSet.is_test_content, TestSet._read_value, initial_hasher, is_gcid.
  destruct (TestSet.cls ts); simpl; intros H; try (by destruct H); done.
Qed.

Lemma read_value_content_Ok ts ctx :
  TestSet.is_test_content ts →
  is_Some (hashs ctx !! name (initial_hasher ts)) →
  ∃ v, TestSet._read_value ts ctx = Ok v.
Proof.
  intros Hc [d Hd]. rewrite read_value_content by done.
  unfold TestSet.hashs_getitem. rewrite Hd. simpl. eauto.
Qed.

Lemma read_value_not_KeyError_metadata ts ctx :
  ¬ TestSet.is_test_content ts → ∃ v, TestSet._read_value ts ctx = Ok v.
Proof.
  destruct ctx as [p hs]. intros [v Hv]%(read_value_metadata _ p). eauto.
Qed.

Lemma test_of_read_value ts ctx v :
  TestSet._read_value ts ctx = Ok v →
  TestSet.test ts ctx = Ok (bool_decide (v ∈ TestSet._dataset ts)).
Proof. unfold TestSet.test. by intros ->. Qed.

Lemma add_of_read_value ts ctx v :
  TestSet._read_value ts ctx = Ok v → TestSet.add ts ctx = Ok (TestSet.after_add ts ctx).
Proof.
  unfold TestSet.after_add, TestSet.add. intros ->. simpl. by case_bool_decide.
Qed.

Lemma test_content_lookup ts ctx d :
  TestSet.is_test_content ts →
  hashs ctx !! name (initial_hasher ts) = Some d →
  TestSet.test ts ctx = Ok (bool_decide (lower d ∈ TestSet._dataset ts)).
Proof.
  intros Hc Hd. unfold TestSet.test. rewrite read_value_content by done.
  unfold TestSet.hashs_getitem. by rewrite Hd.
Qed.

Lemma is_gcid_content ts : is_gcid ts → TestSet.is_test_content ts.
Proof. unfold is_gcid, TestSet.is_test_content. by destruct (TestSet.cls ts). Qed.

Lemma is_test_content_cls ts1 ts2 :
  TestSet.cls ts1 = TestSet.cls ts2 →
  TestSet.is_test_content ts1 = TestSet.is_test_content ts2.
Proof. unfold TestSet.is_test_content. by intros ->. Qed.

Lemma get_buffer_size_cls E ts1 ts2 p :
  TestSet.cls ts1 = TestSet.cls ts2 →
  TestSet.get_buffer_size E ts1 p = TestSet.get_buffer_size E ts2 p.
Proof. unfold TestSet.get_buffer_size. by intros ->. Qed.

Lemma get_content_hasher_cls ts1 ts2 :
  TestSet.cls ts1 = TestSet.cls ts2 →
  TestSet.get_content_hasher ts1 = TestSet.get_content_hasher ts2.
Proof. unfold TestSet.get_content_hasher. by intros ->. Qed.

(** ** The partition into pieces *)

Lemma pieces_count_nil P : (P - 1) / P = 0.
Proof.
  destruct P as [|P]; [done|]. apply Nat.div_small. lia.
Qed.

Lemma pieces_count_step L P :
  0 < L → 0 < P → (L + P - 1) / P = S ((L - P + P - 1) / P).
Proof.
  intros HL HP. destruct (decide (L ≤ P)) as [Hle|Hgt].
  - replace (L - P + P - 1) with (P - 1) by lia. rewrite pieces_count_nil.
    symmetry. apply (Nat.div_unique _ _ _ (L - 1)); lia.
  - replace (L + P - 1) with ((L - P + P - 1) + 1 * P) by lia.
    rewrite Nat.div_add by lia. lia.
Qed.

Lemma pieces_nil P : pieces P [] = [].
Proof. unfold pieces. simpl. by rewrite pieces_count_nil. Qed.

Lemma pieces_zero data : pieces 0 data = [].
Proof. unfold pieces. by rewrite Nat.div_0_r. Qed.

Lemma pieces_cons P data :
  0 < P → data ≠ [] → pieces P data = take P data :: pieces P (drop P data).
Proof.
  intros HP Hd. unfold pieces.
  assert (0 < length data) as HL by (destruct data; simpl; [done|lia]).
  rewrite (pieces_count_step _ _ HL HP), length_drop.
  cbn [seq fmap list_fmap]. f_equal.
  rewrite <- fmap_S_seq, <- list_fmap_compose. apply list_fmap_ext.
  intros _ i _. simpl. rewrite drop_drop. do 2 f_equal; lia.
Qed.

Lemma pieces_of_take_nil P data : take P data = [] → pieces P data = [].
Proof.
  destruct P; [intros _; apply pieces_zero|].
  destruct data; [intros _; apply pieces_nil|done].
Qed.

Lemma concat_pieces P data : 0 < P → concat (pieces P data) = data.
Proof.
  intros HP. remember (length data) as n eqn:Hn.
  revert data Hn. induction n as [n IH] using lt_wf_ind. intros data ->.
  destruct data as [|b data]; [by rewrite pieces_nil|].
  rewrite pieces_cons by done. cbn [concat].
  rewrite (IH (length (drop P (b :: data)))); [apply take_drop| |done].
  rewrite length_drop. simpl. lia.
Qed.

(** Piece [i] exists exactly when the file has a byte at offset [i * P]. *)
Lemma pieces_count P L i : 0 < P → i < (L + P - 1) / P ↔ i * P < L.
Proof.
  intros HP.
  pose proof (Nat.Div0.mul_div_le (L + P - 1) P) as Hlo.
  pose proof (Nat.mul_succ_div_gt (L + P - 1) P) as Hhi.
  split; intros H; nia.
Qed.

Lemma pieces_lookup P data i :
  0 < P →
  pieces P data !! i
  = if decide (i * P < length data) then Some (take P (drop (i * P) data)) else None.
Proof.
  intros HP. unfold pieces. rewrite list_lookup_fmap.
  case_decide as Hi; apply (pieces_count P (length data) i HP) in Hi || rewrite <- (pieces_count P (length data) i HP) in Hi.
  - by rewrite lookup_seq_lt.
  - rewrite lookup_seq_ge by lia. done.
Qed.

(** Every piece is non-empty and holds at most [P] bytes; every piece but
    the last holds exactly [P]. *)
Lemma pieces_shape P data i c :
  0 < P → pieces P data !! i = Some c →
  0 < length c ≤ P ∧ (S i < length (pieces P data) → length c = P).
Proof.
  intros HP. rewrite pieces_lookup by done. case_decide as Hi; [|done].
  intros [= <-]. rewrite length_take, length_drop. split; [lia|].
  unfold pieces. rewrite length_fmap, length_seq.
  intros Hnext%(pieces_count P (length data) (S i) HP). lia.
Qed.


(** ** Computations with system calls *)

Lemma IO_bind_eq {A B} (m : IO A) (f : A → IO B) tr :
  (m ≫= f) tr = match m tr with
                | (tr', Ok a) => f a tr'
                | (tr', Raise e) => (tr', Raise e)
                end.
Proof. reflexivity. Qed.

Lemma IO_ret_eq {A} (a : A) tr : mret (M := IO) a tr = (tr, Ok a).
Proof. reflexivity. Qed.

Lemma IO_bind_inv {A B} (m : IO A) (f : A → IO B) tr tr' r :
  (m ≫= f) tr = (tr', r) →
  (∃ e, m tr = (tr', Raise e) ∧ r = Raise e)
  ∨ (∃ a tr1, m tr = (tr1, Ok a) ∧ f a tr1 = (tr', r)).
Proof.
  rewrite IO_bind_eq. destruct (m tr) as [tr1 [a|e]].
  - intros H. right. eauto.
  - intros [= <- <-]. left. eauto.
Qed.

Lemma IO_bind_Raise {A B} (m : IO A) (f : A → IO B) tr tr' e :
  (m ≫= f) tr = (tr', Raise e) →
  m tr = (tr', Raise e) ∨ (∃ a tr1, m tr = (tr1, Ok a) ∧ f a tr1 = (tr', Raise e)).
Proof.
  intros [(e' & H & [= ->])|H]%IO_bind_inv; [by left|by right].
Qed.

Lemma mapM_IO_cons {A B} (f : A → IO B) x l :
  mapM f (x :: l) = (y ← f x; k ← mapM f l; mret (y :: k)).
Proof. reflexivity. Qed.

Lemma mapM_result_cons {A B} (f : A → result B) x l :
  mapM f (x :: l) = (y ← f x; k ← mapM f l; mret (y :: k)).
Proof. reflexivity. Qed.

Lemma writer_ret {A} (a : A) : writer (mret a).
Proof. intros tr. rewrite !IO_ret_eq. simpl. by rewrite app_nil_r. Qed.

Lemma writer_raise {A} e : writer (raise (A := A) e).
Proof. intros tr. unfold raise. simpl. by rewrite app_nil_r. Qed.

Lemma writer_lift {A} (r : result A) : writer (lift r).
Proof. intros tr. unfold lift. simpl. by rewrite app_nil_r. Qed.

Lemma writer_syscall ev : writer (syscall ev).
Proof. intros tr. reflexivity. Qed.

Lemma writer_bind {A B} (m : IO A) (f : A → IO B) :
  writer m → (∀ a, writer (f a)) → writer (m ≫= f).
Proof.
  intros Hm Hf tr. rewrite !IO_bind_eq, (Hm tr).
  destruct (m []) as [tr1 [a|e]]; simpl; [|done].
  rewrite (Hf a (tr ++ tr1)), (Hf a tr1). simpl. by rewrite app_assoc.
Qed.

Lemma writer_mapM {A B} (f : A → IO B) l : (∀ x, writer (f x)) → writer (mapM f l).
Proof.
  intros Hf. induction l as [|x l IH]; [apply writer_ret|].
  rewrite mapM_IO_cons. apply writer_bind; [done|]. intros y.
  apply writer_bind; [done|]. intros k. apply writer_ret.
Qed.

(** Every computation built from the primitives with [≫=] is a writer. *)
Create HintDb writer.
#[global] Hint Resolve writer_ret writer_raise writer_lift writer_syscall : writer.

Ltac solve_writer :=
  repeat first
    [ solve [auto with writer]
    | apply writer_bind; [|intros ?]
    | apply writer_mapM; intros ?
    | match goal with
      | |- writer (match ?x with _ => _ end) => destruct x
      end ].


Lemma writer_getsize E p : writer (getsize E p).
Proof.
  unfold getsize. solve_writer.
Qed.

Lemma writer_open E p : writer (open E p).
Proof.
  unfold open. solve_writer.
Qed.

Lemma writer_readinto p fp k n rest : writer (readinto p fp k n rest).
Proof.
  unfold readinto. solve_writer.
Qed.

Lemma writer_read_loop fuel p fp n k rest hs :
  writer (TestSets.read_loop fuel p fp n k rest hs).
Proof.
  revert k rest hs. induction fuel as [|fuel IH]; intros k rest hs.
  - apply writer_ret.
  - cbn [TestSets.read_loop]. apply writer_bind; [apply writer_readinto|].
    intros [|b chunk]; [apply writer_ret|apply IH].
Qed.

Lemma writer_get_buffer_size E ts p : writer (TestSet.get_buffer_size E ts p).
Proof.
  unfold TestSet.get_buffer_size. pose proof (writer_getsize E p). solve_writer.
Qed.

(** ** Hashers *)

Lemma sha1_feed ps acc :
  digest (foldl update (PlainSha1 {| fed := acc |}) ps) = sha1 (acc ++ concat ps).
Proof.
  revert acc. induction ps as [|c ps IH]; intros acc.
  - simpl. by rewrite app_nil_r.
  - cbn [foldl concat].
    change (update (PlainSha1 {| fed := acc |}) c) with (PlainSha1 {| fed := acc ++ c |}).
    by rewrite IH, <- app_assoc.
Qed.

Lemma gcid_feed ps acc :
  digest (foldl update (Gcid {| __isha1 := {| fed := acc |} |}) ps)
  = sha1 (acc ++ concat (sha1 <$> ps)).
Proof.
  revert acc. induction ps as [|c ps IH]; intros acc.
  - simpl. by rewrite app_nil_r.
  - cbn [foldl concat fmap list_fmap].
    change (update (Gcid {| __isha1 := {| fed := acc |} |}) c)
      with (Gcid {| __isha1 := {| fed := acc ++ sha1 c |} |}).
    by rewrite IH, <- app_assoc.
Qed.

Lemma gcid_hasher_digest ps :
  digest (foldl update (Gcid _GcidHasher_new) ps) = gcid_of_pieces ps.
Proof. apply (gcid_feed ps []). Qed.

Lemma sha1_hasher_digest B data :
  0 < B → digest (feed B data (PlainSha1 (hashlib_sha1_new []))) = sha1 data.
Proof.
  intros HB. unfold feed, hashlib_sha1_new. rewrite sha1_feed. simpl.
  by rewrite concat_pieces.
Qed.

Lemma name_initial_hasher ts :
  name (initial_hasher ts) = if is_gcid ts then "gcid" else "sha1".
Proof. unfold initial_hasher. by destruct (is_gcid ts). Qed.

Lemma name_foldl_update (h : hasher) ps : name (foldl update h ps) = name h.
Proof.
  revert h. induction ps as [|c ps IH]; intros h; cbn [foldl]; [done|].
  rewrite IH. by destruct h.
Qed.

Lemma foldl_update_fmap (ps : list (list byte)) (chunk : list byte) (hs : list hasher) :
  (λ h, foldl update h ps) <$> ((λ h, update h chunk) <$> hs)
  = (λ h, foldl update h (chunk :: ps)) <$> hs.
Proof. by rewrite <- list_fmap_compose. Qed.

Lemma digest_feed_initial B data ts :
  0 < B →
  digest (feed B data (initial_hasher ts))
  = if is_gcid ts then gcid_of_pieces (pieces B data) else sha1 data.
Proof.
  intros HB. unfold initial_hasher. destruct (is_gcid ts).
  - apply gcid_hasher_digest.
  - by apply sha1_hasher_digest.
Qed.

(** ** Reading a file *)

Lemma read_loop_ok fuel p fp n k rest hs tr :
  f_bad_read fp = None → length rest < fuel →
  TestSets.read_loop fuel p fp n k rest hs tr
  = (tr ++ replicate (S (length (pieces n rest))) (Readinto p),
     Ok ((λ h, foldl update h (pieces n rest)) <$> hs)).
Proof.
  intros Hbad. revert k rest hs tr.
  induction fuel as [|fuel IH]; intros k rest hs tr Hlen; [lia|].
  cbn [TestSets.read_loop]. rewrite IO_bind_eq.
  unfold readinto at 1. rewrite IO_bind_eq. unfold syscall at 1.
  rewrite Hbad. rewrite decide_False by done.
  rewrite IO_ret_eq.
  destruct (take n rest) as [|b chunk] eqn:Htake.
  - rewrite (pieces_of_take_nil _ _ Htake). simpl.
    by rewrite list_fmap_id.
  - assert (0 < n) by (destruct n; [done|lia]).
    assert (rest ≠ []) by (intros ->; by rewrite take_nil in Htake).
    rewrite IH.
    2:{ rewrite length_drop. destruct rest; simpl in *; [done|lia]. }
    rewrite (pieces_cons n rest), Htake by done.
    rewrite foldl_update_fmap. f_equal.
    rewrite <- app_assoc. f_equal.
Qed.

(** With [S (length rest)] turns the loop never runs out of them: it ends
    in the error of a failed read or with every piece fed. *)
Lemma read_loop_total fuel p fp n k rest hs tr tr' r :
  length rest < fuel →
  TestSets.read_loop fuel p fp n k rest hs tr = (tr', r) →
  r = Raise (OSError p) ∨ r = Ok ((λ h, foldl update h (pieces n rest)) <$> hs).
Proof.
  revert k rest hs tr.
  induction fuel as [|fuel IH]; intros k rest hs tr Hlen; [lia|].
  cbn [TestSets.read_loop]. rewrite IO_bind_eq.
  unfold readinto at 1. rewrite IO_bind_eq. unfold syscall at 1.
  case_decide; [intros [= _ <-]; by left|]. rewrite IO_ret_eq.
  destruct (take n rest) as [|b chunk] eqn:Htake.
  - rewrite (pieces_of_take_nil _ _ Htake). intros [= _ <-]. right.
    by rewrite list_fmap_id.
  - assert (0 < n) by (destruct n; [done|lia]).
    assert (rest ≠ []) by (intros ->; by rewrite take_nil in Htake).
    intros Hrec. apply IH in Hrec as [->| ->]; [by left| |].
    + right. by rewrite (pieces_cons n rest), Htake, foldl_update_fmap.
    + rewrite length_drop. destruct rest; simpl in *; [done|lia].
Qed.

Lemma read_loop_names fuel p fp n k rest hs tr tr' hs' :
  TestSets.read_loop fuel p fp n k rest hs tr = (tr', Ok hs') →
  name <$> hs' = name <$> hs.
Proof.
  revert k rest hs tr. induction fuel as [|fuel IH]; intros k rest hs tr.
  - by intros [= _ <-].
  - cbn [TestSets.read_loop]. rewrite IO_bind_eq.
    unfold readinto at 1. rewrite IO_bind_eq. unfold syscall at 1.
    case_decide; [done|].
    rewrite IO_ret_eq.
    destruct (take n rest) as [|b chunk]; [by intros [= _ <-]|].
    intros Hrec%IH. rewrite Hrec, <- list_fmap_compose. apply list_fmap_ext.
    intros _ [h|h] _; done.
Qed.

Lemma read_loop_raise fuel p fp n k rest hs tr tr' e :
  TestSets.read_loop fuel p fp n k rest hs tr = (tr', Raise e) → e = OSError p.
Proof.
  revert k rest hs tr. induction fuel as [|fuel IH]; intros k rest hs tr; [done|].
  cbn [TestSets.read_loop]. rewrite IO_bind_eq.
  unfold readinto at 1. rewrite IO_bind_eq. unfold syscall at 1.
  case_decide; [by intros [= _ <-]|]. rewrite IO_ret_eq.
  destruct (take n rest); [done|]. apply IH.
Qed.

Lemma getsize_raise E p tr tr' e : getsize E p tr = (tr', Raise e) → e = OSError p.
Proof.
  unfold getsize. rewrite IO_bind_eq. unfold syscall at 1.
  destruct (fs E !! p); [by rewrite IO_ret_eq|]. by intros [= _ <-].
Qed.

Lemma get_buffer_size_raise E ts p tr tr' e :
  TestSet.get_buffer_size E ts p tr = (tr', Raise e) → e = OSError p.
Proof.
  unfold TestSet.get_buffer_size.
  destruct (TestSet.cls ts); rewrite ?IO_ret_eq; try done.
  intros [H%getsize_raise|(a & tr1 & _ & H)]%IO_bind_Raise; [done|].
  by rewrite IO_ret_eq in H.
Qed.

Lemma mapM_get_buffer_size_raise E l p tr tr' e :
  mapM (λ ts, TestSet.get_buffer_size E ts p) l tr = (tr', Raise e) → e = OSError p.
Proof.
  revert tr. induction l as [|ts l IH]; intros tr; [done|].
  rewrite mapM_IO_cons.
  intros [H%get_buffer_size_raise|(a & tr1 & _ & H)]%IO_bind_Raise; [done|].
  apply IO_bind_Raise in H as [H%IH|(k & tr2 & _ & H)]; [done|].
  by rewrite IO_ret_eq in H.
Qed.

Lemma open_raise E p tr tr' e : open E p tr = (tr', Raise e) → e = OSError p.
Proof.
  unfold open. rewrite IO_bind_eq. unfold syscall at 1.
  destruct (fs E !! p) as [f|]; [|by intros [= _ <-]].
  destruct (f_readable f); [by rewrite IO_ret_eq|by intros [= _ <-]].
Qed.

Lemma open_readable E p f tr :
  fs E !! p = Some f → f_readable f = true → open E p tr = (tr ++ [Open p], Ok f).
Proof.
  intros Hf Hr. unfold open. rewrite IO_bind_eq. unfold syscall at 1.
  by rewrite Hf, Hr.
Qed.

Lemma get_buffer_size_found E ts p f tr :
  fs E !! p = Some f →
  TestSet.get_buffer_size E ts p tr
  = (tr ++ (if is_gcid ts then [Getsize p] else []),
     Ok (hint_of E (N.of_nat (length (f_data f))) ts)).
Proof.
  intros Hf. unfold TestSet.get_buffer_size, hint_of, is_gcid.
  destruct (TestSet.cls ts); rewrite ?IO_ret_eq, ?app_nil_r; try done.
  rewrite IO_bind_eq. unfold getsize. rewrite IO_bind_eq. unfold syscall at 1.
  by rewrite Hf.
Qed.

Lemma mapM_get_buffer_size E l p f tr :
  fs E !! p = Some f →
  mapM (λ ts, TestSet.get_buffer_size E ts p) l tr
  = (tr ++ replicate (length (filter (λ ts, is_gcid ts) l)) (Getsize p),
     Ok (hint_of E (N.of_nat (length (f_data f))) <$> l)).
Proof.
  intros Hf. revert tr. induction l as [|ts l IH]; intros tr.
  - simpl. by rewrite app_nil_r.
  - rewrite mapM_IO_cons, IO_bind_eq, (get_buffer_size_found _ _ _ _ _ Hf).
    rewrite IO_bind_eq, IH, IO_ret_eq, <- app_assoc. f_equal. f_equal.
    rewrite filter_cons. destruct (is_gcid ts); simpl; done.
Qed.

Lemma mapM_get_content_hasher l :
  Forall (λ ts, TestSet.is_test_content ts) l →
  mapM TestSet.get_content_hasher l = Ok (initial_hasher <$> l).
Proof.
  induction 1 as [|ts l Hts _ IH]; [done|].
  rewrite mapM_result_cons, IH, fmap_cons.
  unfold TestSet.get_content_hasher, initial_hasher at 2, is_gcid.
  unfold TestSet.is_test_content in Hts.
  destruct (TestSet.cls ts); done.
Qed.

Lemma mapM_get_buffer_size_fmap E p (g : TestSet.t → TestSet.t) l :
  (∀ ts, TestSet.cls (g ts) = TestSet.cls ts) →
  mapM (λ ts, TestSet.get_buffer_size E ts p) (g <$> l)
  = mapM (λ ts, TestSet.get_buffer_size E ts p) l.
Proof.
  intros Hg. induction l as [|ts l IH]; [done|].
  rewrite fmap_cons, !mapM_IO_cons, IH. cbv beta.
  by rewrite (get_buffer_size_cls E (g ts) ts p (Hg ts)).
Qed.

Lemma mapM_get_content_hasher_fmap (g : TestSet.t → TestSet.t) l :
  (∀ ts, TestSet.cls (g ts) = TestSet.cls ts) →
  mapM TestSet.get_content_hasher (g <$> l) = mapM TestSet.get_content_hasher l.
Proof.
  intros Hg. induction l as [|ts l IH]; [done|].
  rewrite fmap_cons, !mapM_result_cons, IH.
  by rewrite (get_content_hasher_cls (g ts) ts (Hg ts)).
Qed.

(** ** The size of the read buffer *)

Lemma choose_buf_size_spec E hints :
  TestSets.choose_buf_size E hints =
  match omap TestSets.truthy hints with
  | [] => Ok (DEFAULT_BUFFER_SIZE E)
  | [b] => Ok b
  | _ => Raise (AssertionError "TODO")
  end.
Proof.
  unfold TestSets.choose_buf_size.
  by destruct (omap TestSets.truthy hints) as [|b [|b' bs]].
Qed.

Lemma choose_buf_size_raise E hints e :
  TestSets.choose_buf_size E hints = Raise e → e = AssertionError "TODO".
Proof.
  unfold TestSets.choose_buf_size. destruct (omap _ _) as [|b bs]; [done|].
  case_bool_decide; [done|]. by intros [= <-].
Qed.

Lemma omap_cons {A B} (f : A → option B) x l :
  omap f (x :: l) = match f x with Some y => y :: omap f l | None => omap f l end.
Proof. reflexivity. Qed.

Lemma omap_truthy_hints E size l :
  get_gcid_piece_size E size ≠ 0%N →
  omap TestSets.truthy (hint_of E size <$> l)
  = replicate (length (filter (λ ts, is_gcid ts) l)) (get_gcid_piece_size E size).
Proof.
  intros HP. induction l as [|ts l IH]; [done|].
  rewrite fmap_cons, filter_cons, omap_cons, IH.
  unfold hint_of. destruct (is_gcid ts); simpl; [|done].
  apply N.eqb_neq in HP. by rewrite HP.
Qed.

Lemma choose_buf_size_at_most_one E size l :
  get_gcid_piece_size E size ≠ 0%N →
  length (filter (λ ts, is_gcid ts) l) ≤ 1 →
  TestSets.choose_buf_size E (hint_of E size <$> l)
  = Ok (if decide (filter (λ ts, is_gcid ts) l = []) then DEFAULT_BUFFER_SIZE E
        else get_gcid_piece_size E size).
Proof.
  intros HP Hg. rewrite choose_buf_size_spec, omap_truthy_hints by done.
  destruct (filter _ l) as [|ts [|ts' l']]; simpl in *; try done. lia.
Qed.

Lemma choose_buf_size_conflict E size l :
  get_gcid_piece_size E size ≠ 0%N →
  2 ≤ length (filter (λ ts, is_gcid ts) l) →
  TestSets.choose_buf_size E (hint_of E size <$> l) = Raise (AssertionError "TODO").
Proof.
  intros HP Hg. rewrite choose_buf_size_spec, omap_truthy_hints by done.
  destruct (filter _ l) as [|ts [|ts' l']]; simpl in *; try lia. done.
Qed.

(** ** The digest map *)

Lemma foldl_store_digest_path ctx hs :
  path (foldl TestSets.store_digest ctx hs) = path ctx.
Proof. revert ctx. induction hs as [|h hs IH]; intros ctx; cbn [foldl]; [done|]. by rewrite IH. Qed.

Lemma foldl_store_digest_lookup ctx hs k v :
  (∃ h, h ∈ hs ∧ name h = k) →
  (∀ h, h ∈ hs → name h = k → lower (hex (digest h)) = v) →
  hashs (foldl TestSets.store_digest ctx hs) !! k = Some v.
Proof.
  induction hs as [|h hs IH] using rev_ind; intros (h0 & Hin & Hname) Hall.
  - by apply elem_of_nil in Hin.
  - rewrite foldl_snoc. cbn [TestSets.store_digest hashs].
    destruct (decide (name h = k)) as [Hk|Hk].
    + rewrite Hk, lookup_insert_eq. f_equal. apply Hall; [|done].
      apply elem_of_app. right. by apply list_elem_of_singleton.
    + rewrite lookup_insert_ne by done. apply IH.
      * apply elem_of_app in Hin as [Hin|Hin%list_elem_of_singleton]; [eauto|congruence].
      * intros h' Hh'. apply Hall. apply elem_of_app. by left.
Qed.

Lemma foldl_store_digest_is_Some ctx hs k :
  k ∈ name <$> hs → is_Some (hashs (foldl TestSets.store_digest ctx hs) !! k).
Proof.
  induction hs as [|h hs IH] using rev_ind; intros Hin.
  - by apply elem_of_nil in Hin.
  - rewrite foldl_snoc. cbn [TestSets.store_digest hashs].
    apply lookup_insert_is_Some. destruct (decide (name h = k)); [by left|right].
    split; [done|]. apply IH.
    rewrite fmap_app in Hin. apply elem_of_app in Hin as [Hin|Hin]; [done|].
    apply list_elem_of_singleton in Hin. congruence.
Qed.

Lemma fed_hashers_lookup ctx B data cts ts :
  ts ∈ cts →
  hashs (foldl TestSets.store_digest ctx (feed B data <$> (initial_hasher <$> cts)))
    !! name (initial_hasher ts)
  = Some (hex (digest (feed B data (initial_hasher ts)))).
Proof.
  intros Hin. apply foldl_store_digest_lookup.
  - exists (feed B data (initial_hasher ts)). split.
    + by apply list_elem_of_fmap_2, list_elem_of_fmap_2.
    + apply name_foldl_update.
  - intros h (h0 & -> & (ts' & -> & _)%list_elem_of_fmap)%list_elem_of_fmap.
    unfold feed. rewrite name_foldl_update, lower_hex.
    unfold initial_hasher. by destruct (is_gcid ts'), (is_gcid ts).
Qed.

Lemma spec_digests_lookup E data ts :
  spec_digests E data !! name (initial_hasher ts)
  = Some (hex (if is_gcid ts
               then gcid_of_pieces (pieces (N.to_nat (get_gcid_piece_size E (N.of_nat (length data)))) data)
               else sha1 data)).
Proof.
  rewrite name_initial_hasher. unfold spec_digests.
  destruct (is_gcid ts).
  - rewrite lookup_insert_ne by done. by rewrite lookup_singleton_eq.
  - by rewrite lookup_insert_eq.
Qed.

(** ** [__context_fill_hashs] *)

Lemma content_tests_sets_Forall tss :
  Forall (λ ts, TestSet.is_test_content ts) (TestSets.__content_tests_sets tss).
Proof. apply Forall_forall. intros ts [? _]%list_elem_of_filter. done. Qed.

Lemma metadata_tests_sets_Forall tss :
  Forall (λ ts, ¬ TestSet.is_test_content ts) (TestSets.__metadata_tests_sets tss).
Proof. apply Forall_forall. intros ts [? _]%list_elem_of_filter. done. Qed.

Lemma filter_is_gcid_content tss :
  filter (λ ts, is_gcid ts) (TestSets.__content_tests_sets tss)
  = filter (λ ts, is_gcid ts) (TestSets.__tests_sets tss).
Proof.
  unfold TestSets.__content_tests_sets.
  apply list_filter_filter_l. intros ts. apply is_gcid_content.
Qed.

Lemma Forall_metadata_content (Q : TestSet.t → Prop) tss :
  Forall Q (TestSets.__tests_sets tss) ↔
  Forall Q (TestSets.__metadata_tests_sets tss) ∧ Forall Q (TestSets.__content_tests_sets tss).
Proof.
  unfold TestSets.__metadata_tests_sets, TestSets.__content_tests_sets.
  rewrite !Forall_forall. setoid_rewrite list_elem_of_filter. split.
  - intros H. split; intros ts [_ ?]; by apply H.
  - intros [Hm Hc] ts Hts.
    destruct (decide (TestSet.is_test_content ts)); [apply Hc|apply Hm]; done.
Qed.

Lemma content_tests_sets_fmap (g : TestSet.t → TestSet.t) l :
  (∀ ts, TestSet.cls (g ts) = TestSet.cls ts) →
  TestSets.__content_tests_sets (TestSets.new (g <$> l))
  = g <$> TestSets.__content_tests_sets (TestSets.new l).
Proof.
  intros Hg. unfold TestSets.__content_tests_sets. simpl.
  induction l as [|ts l IH]; [done|].
  rewrite fmap_cons, !filter_cons, IH, (is_test_content_cls _ _ (Hg ts)).
  by destruct (decide _).
Qed.

(** The whole of [__context_fill_hashs] on a file that reads without error. *)

Lemma fill_hashs_readable E tss ctx f tr :
  fs E !! path ctx = Some f → f_readable f = true → f_bad_read f = None →
  TestSets.__content_tests_sets tss ≠ [] →
  let cts := TestSets.__content_tests_sets tss in
  let size := N.of_nat (length (f_data f)) in
  let tr1 := tr ++ replicate (length (filter (λ ts, is_gcid ts) cts)) (Getsize (path ctx)) in
  TestSets.__context_fill_hashs E tss ctx tr =
  match TestSets.choose_buf_size E (hint_of E size <$> cts) with
  | Raise e => (tr1, Raise e)
  | Ok B =>
      (tr1 ++ Open (path ctx)
           :: replicate (S (length (pieces (N.to_nat B) (f_data f)))) (Readinto (path ctx)),
       Ok (foldl TestSets.store_digest ctx
             (feed (N.to_nat B) (f_data f) <$> (initial_hasher <$> cts))))
  end.
Proof.
  intros Hf Hr Hbad Hne cts size tr1. subst cts tr1 size.
  unfold TestSets.__context_fill_hashs.
  pose proof (content_tests_sets_Forall tss) as Hall.
  destruct (TestSets.__content_tests_sets tss) as [|ts0 cts']; [done|].
  rewrite IO_bind_eq, (mapM_get_buffer_size _ _ _ _ _ Hf).
  rewrite IO_bind_eq. unfold lift at 1.
  destruct (TestSets.choose_buf_size _ _) as [B|e]; [|done].
  rewrite IO_bind_eq. unfold lift at 1.
  rewrite mapM_get_content_hasher by done.
  rewrite IO_bind_eq, (open_readable _ _ _ _ Hf Hr).
  rewrite IO_bind_eq, read_loop_ok by (done || lia).
  rewrite IO_ret_eq. f_equal. by rewrite <- app_assoc.
Qed.

(** Everything [__context_fill_hashs] can end in. *)

Lemma fill_hashs_cases E tss ctx tr tr' r :
  TestSets.__context_fill_hashs E tss ctx tr = (tr', r) →
  match r with
  | Ok ctx' =>
      path ctx' = path ctx
      ∧ ∀ ts, ts ∈ TestSets.__content_tests_sets tss →
              is_Some (hashs ctx' !! name (initial_hasher ts))
  | Raise e => e = OSError (path ctx) ∨ e = AssertionError "TODO"
  end.
Proof.
  unfold TestSets.__context_fill_hashs.
  pose proof (content_tests_sets_Forall tss) as Hall.
  destruct (TestSets.__content_tests_sets tss) as [|ts0 cts].
  { rewrite IO_ret_eq. intros [= <- <-]. split; [done|]. by intros ts ?%elem_of_nil. }
  intros [(e & H%mapM_get_buffer_size_raise & ->)|(hints & tr1 & _ & H)]%IO_bind_inv; [by left|].
  apply IO_bind_inv in H as [(e & H & ->)|(B & tr2 & _ & H)].
  { unfold lift in H. injection H as _ H%choose_buf_size_raise. by right. }
  rewrite mapM_get_content_hasher in H by done.
  apply IO_bind_inv in H as [(e & H & ->)|(hs & tr3 & [= <- <-] & H)]; [done|].
  apply IO_bind_inv in H as [(e & H%open_raise & ->)|(fp & tr4 & _ & H)]; [by left|].
  apply IO_bind_inv in H as [(e & H%read_loop_raise & ->)|(hs' & tr5 & Hloop & H)]; [by left|].
  rewrite IO_ret_eq in H. injection H as <- <-.
  apply read_loop_names in Hloop.
  split; [apply foldl_store_digest_path|].
  intros ts Hts. apply foldl_store_digest_is_Some. rewrite Hloop.
  apply list_elem_of_fmap. exists (initial_hasher ts). split; [done|].
  by apply (list_elem_of_fmap_2 initial_hasher (ts0 :: cts)).
Qed.

Lemma writer_fill_hashs E tss ctx : writer (TestSets.__context_fill_hashs E tss ctx).
Proof.
  unfold TestSets.__context_fill_hashs.
  pose proof (writer_get_buffer_size E) as Hsize. pose proof (writer_open E) as Hopen.
  pose proof writer_read_loop as Hloop. solve_writer.
Qed.

Lemma fill_hashs_result_any_trace E tss ctx tr1 tr2 :
  (TestSets.__context_fill_hashs E tss ctx tr1).2
  = (TestSets.__context_fill_hashs E tss ctx tr2).2.
Proof.
  rewrite (writer_fill_hashs E tss ctx tr1), (writer_fill_hashs E tss ctx tr2). done.
Qed.

Lemma fill_hashs_fmap E (g : TestSet.t → TestSet.t) l ctx :
  (∀ ts, TestSet.cls (g ts) = TestSet.cls ts) →
  TestSets.__context_fill_hashs E (TestSets.new (g <$> l)) ctx
  = TestSets.__context_fill_hashs E (TestSets.new l) ctx.
Proof.
  intros Hg. unfold TestSets.__context_fill_hashs.
  rewrite (content_tests_sets_fmap g l Hg).
  destruct (TestSets.__content_tests_sets (TestSets.new l)) as [|ts0 cts]; [done|].
  rewrite fmap_cons.
  change (g ts0 :: (g <$> cts)) with (g <$> (ts0 :: cts)).
  by rewrite (mapM_get_buffer_size_fmap E _ g _ Hg), (mapM_get_content_hasher_fmap g _ Hg).
Qed.

Lemma content_tests_Ok E tss ctx tr tr' ctx' :
  TestSets.__context_fill_hashs E tss ctx tr = (tr', Ok ctx') →
  Forall (λ ts, ∃ v, TestSet._read_value ts ctx' = Ok v) (TestSets.__content_tests_sets tss).
Proof.
  intros [_ Hkeys]%fill_hashs_cases. apply Forall_forall. intros ts Hts.
  apply read_value_content_Ok; [|by apply Hkeys].
  by apply list_elem_of_filter in Hts as [? _].
Qed.

Lemma all_read_values_Ok E tss ctx tr tr' ctx' :
  TestSets.__context_fill_hashs E tss ctx tr = (tr', Ok ctx') →
  Forall (λ ts, ∃ v, TestSet._read_value ts ctx' = Ok v) (TestSets.__tests_sets tss).
Proof.
  intros Hfill. apply Forall_forall. intros ts Hts.
  destruct (TestSet.is_test_content ts) eqn:Hc.
  - pose proof (content_tests_Ok _ _ _ _ _ _ Hfill) as H.
    rewrite Forall_forall in H. apply H. apply list_elem_of_filter.
    split; [by rewrite Hc|done].
  - apply read_value_not_KeyError_metadata. intros H. by rewrite Hc in H.
Qed.

(** ** [TestSets.test] and [TestSets.add] *)

Lemma all_test_true ctx l :
  TestSets.all_test ctx l = Ok true ↔ Forall (λ ts, TestSet.test ts ctx = Ok true) l.
Proof.
  induction l as [|ts l IH]; simpl; [by split; [constructor|]|].
  rewrite Forall_cons. destruct (TestSet.test ts ctx) as [[]|e]; simpl.
  - rewrite IH. tauto.
  - split; [done|]. by intros [? _].
  - split; [done|]. by intros [? _].
Qed.

Lemma all_test_Ok ctx l :
  Forall (λ ts, ∃ b, TestSet.test ts ctx = Ok b) l → ∃ b, TestSets.all_test ctx l = Ok b.
Proof.
  induction 1 as [|ts l [b Hb] _ IH]; simpl; [eauto|].
  rewrite Hb. simpl. destruct b; eauto.
Qed.

Lemma all_test_false ctx l ts :
  Forall (λ ts, ∃ b, TestSet.test ts ctx = Ok b) l →
  ts ∈ l → TestSet.test ts ctx = Ok false → TestSets.all_test ctx l = Ok false.
Proof.
  intros Hall Hin Hts. destruct (all_test_Ok _ _ Hall) as [[] Hb]; [|done].
  apply all_test_true in Hb. rewrite Forall_forall in Hb.
  specialize (Hb _ Hin). congruence.
Qed.

Lemma all_test_ext ctx1 ctx2 l :
  Forall (λ ts, TestSet.test ts ctx1 = TestSet.test ts ctx2) l →
  TestSets.all_test ctx1 l = TestSets.all_test ctx2 l.
Proof. induction 1 as [|ts l Hts _ IH]; simpl; [done|]. by rewrite Hts, IH. Qed.

Lemma metadata_tests_Ok tss p hs :
  Forall (λ ts, ∃ b, TestSet.test ts {| path := p; hashs := hs |} = Ok b)
         (TestSets.__metadata_tests_sets tss).
Proof.
  eapply Forall_impl; [apply metadata_tests_sets_Forall|].
  intros ts [b Hb]%(test_metadata _ p). eauto.
Qed.

Lemma all_test_metadata_any_hashs tss p hs1 hs2 :
  TestSets.all_test {| path := p; hashs := hs1 |} (TestSets.__metadata_tests_sets tss)
  = TestSets.all_test {| path := p; hashs := hs2 |} (TestSets.__metadata_tests_sets tss).
Proof.
  apply all_test_ext. eapply Forall_impl; [apply metadata_tests_sets_Forall|].
  intros ts Hts. by apply test_metadata_any_hashs.
Qed.

Lemma tests_sets_nonempty (tss : TestSets.t) ts :
  ts ∈ TestSets.__tests_sets tss → TestSets.__tests_sets tss ≠ [].
Proof. intros Hin Hnil. rewrite Hnil in Hin. by apply elem_of_nil in Hin. Qed.

Lemma test_unfold E tss p tr :
  TestSets.__tests_sets tss ≠ [] →
  TestSets.test E tss p tr =
  (m ← lift (TestSets.all_test (TestContext_new p) (TestSets.__metadata_tests_sets tss));
   if negb m then mret false
   else
     ctx' ← TestSets.__context_fill_hashs E tss (TestContext_new p);
     c ← lift (TestSets.all_test ctx' (TestSets.__content_tests_sets tss));
     if negb c then mret false else mret true) tr.
Proof. intros Hne. unfold TestSets.test. destruct tss as [[|ts0 l]]; [done|]. reflexivity. Qed.

Lemma test_result E tss p tr tr' r :
  TestSets.test E tss p tr = (tr', r) →
  match r with
  | Ok _ => True
  | Raise e => e = AssertionError EmptyString ∨ e = OSError p ∨ e = AssertionError "TODO"
  end.
Proof.
  destruct (decide (TestSets.__tests_sets tss = [])) as [Hnil|Hne].
  { unfold TestSets.test. rewrite Hnil. intros [= <- <-]. by left. }
  rewrite test_unfold by done. rewrite IO_bind_eq. unfold lift at 1, TestContext_new.
  destruct (all_test_Ok _ _ (metadata_tests_Ok tss p ∅)) as [m ->].
  destruct m; simpl; [|by intros [= <- <-]].
  rewrite IO_bind_eq.
  destruct (TestSets.__context_fill_hashs _ _ _ _) as [tr1 [ctx'|e]] eqn:Hfill.
  - rewrite IO_bind_eq. unfold lift at 1.
    destruct (all_test_Ok ctx' (TestSets.__content_tests_sets tss)) as [c ->].
    { eapply Forall_impl; [by eapply content_tests_Ok|].
      intros ts [v Hv]. rewrite (test_of_read_value _ _ _ Hv). eauto. }
    destruct c; by intros [= <- <-].
  - intros [= <- <-]. apply fill_hashs_cases in Hfill. simpl in Hfill. tauto.
Qed.

Lemma add_each_Ok ctx l :
  Forall (λ ts, ∃ v, TestSet._read_value ts ctx = Ok v) l →
  TestSets.add_each ctx l = ((λ ts, TestSet.after_add ts ctx) <$> l, Ok ()).
Proof.
  induction 1 as [|ts l [v Hv] _ IH]; simpl; [done|].
  by rewrite (add_of_read_value _ _ _ Hv), IH.
Qed.

Lemma add_spec E tss p tr :
  TestSets.add E tss p tr =
  match TestSets.__tests_sets tss with
  | [] => (tss, tr, Raise (AssertionError EmptyString))
  | _ =>
      match TestSets.__context_fill_hashs E tss (TestContext_new p) tr with
      | (tr', Raise e) => (tss, tr', Raise e)
      | (tr', Ok ctx') =>
          (TestSets.new ((λ ts, TestSet.after_add ts ctx') <$> TestSets.__tests_sets tss), tr', Ok ())
      end
  end.
Proof.
  unfold TestSets.add.
  destruct (TestSets.__tests_sets tss) as [|ts0 l] eqn:Hl; [done|].
  destruct (TestSets.__context_fill_hashs _ _ _ _) as [tr1 [ctx'|e]] eqn:Hfill; [|done].
  pose proof (all_read_values_Ok _ _ _ _ _ _ Hfill) as Hall. rewrite Hl in Hall.
  by rewrite (add_each_Ok _ _ Hall).
Qed.

Lemma add_spec_cons E ts0 l p tr :
  TestSets.add E (TestSets.new (ts0 :: l)) p tr =
  match TestSets.__context_fill_hashs E (TestSets.new (ts0 :: l)) (TestContext_new p) tr with
  | (tr', Raise e) => (TestSets.new (ts0 :: l), tr', Raise e)
  | (tr', Ok ctx') => (TestSets.new ((λ ts, TestSet.after_add ts ctx') <$> ts0 :: l), tr', Ok ())
  end.
Proof. by rewrite add_spec. Qed.

Lemma add_raise E tss p tr tss' tr' e :
  TestSets.add E tss p tr = (tss', tr', Raise e) →
  tss' = tss ∧ (e = AssertionError EmptyString ∨ e = OSError p ∨ e = AssertionError "TODO").
Proof.
  rewrite add_spec. destruct (TestSets.__tests_sets tss) as [|ts0 l].
  { intros [= <- <- <-]. split; [done|by left]. }
  destruct (TestSets.__context_fill_hashs _ _ _ _) as [tr1 [ctx'|e']] eqn:Hfill; [done|].
  intros [= <- <- <-]. apply fill_hashs_cases in Hfill. simpl in Hfill. tauto.
Qed.


(** ** The claims of the specification *)

(** C1. A file fed to the chunked hasher in consecutive pieces of the size
    the piece-size policy gives for its length has, as its final digest,
    SHA-1 of the concatenation of the SHA-1 digests of the pieces, in file
    order. The read loop over a readable file does exactly that feeding;
    an empty file gives no piece and no [update], and its digest is SHA-1
    of the empty byte sequence. With one gcid set active the evaluator
    stores the hexadecimal form of that digest under the key "gcid". *)
Theorem gcid_digest_of_file E p (data : list byte) tr :
  let P := N.to_nat (get_gcid_piece_size E (N.of_nat (length data))) in
  let fp := {| f_data := data; f_readable := true; f_bad_read := None |} in
  (∃ tr', TestSets.read_loop (S (length data)) p fp P 0 data [Gcid _GcidHasher_new] tr
          = (tr', Ok [feed P data (Gcid _GcidHasher_new)]))
  ∧ digest (feed P data (Gcid _GcidHasher_new)) = sha1 (concat (sha1 <$> pieces P data))
  ∧ (data = [] →
     feed P data (Gcid _GcidHasher_new) = Gcid _GcidHasher_new
     ∧ digest (Gcid _GcidHasher_new) = sha1 [])
  ∧ ∀ tss,
      fs E !! p = Some fp → 0 < P →
      length (filter (λ ts, is_gcid ts) (TestSets.__tests_sets tss)) = 1 →
      ∃ tr' ctx',
        TestSets.__context_fill_hashs E tss (TestContext_new p) tr = (tr', Ok ctx')
        ∧ hashs ctx' !! "gcid" = Some (hex (sha1 (concat (sha1 <$> pieces P data))))
        ∧ concat (pieces P data) = data.
Proof.
  intros P fp. split; [|split; [|split]].
  - eexists. rewrite read_loop_ok by (done || simpl; lia). reflexivity.
  - apply gcid_hasher_digest.
  - intros ->. unfold feed. rewrite pieces_nil. split; reflexivity.
  - intros tss Hf HP Hone.
    rewrite <- filter_is_gcid_content in Hone.
    assert (∃ ts, ts ∈ TestSets.__content_tests_sets tss ∧ is_gcid ts) as (ts & Hts & Hg).
    { destruct (filter _ (TestSets.__content_tests_sets tss)) as [|ts l] eqn:Hfl; [done|].
      exists ts. apply and_comm, (list_elem_of_filter (λ ts, is_gcid ts)).
      rewrite Hfl. left. }
    assert (TestSets.__content_tests_sets tss ≠ []) as Hne.
    { intros Hnil. rewrite Hnil in Hts. by apply elem_of_nil in Hts. }
    pose proof (fill_hashs_readable E tss (TestContext_new p) fp tr Hf eq_refl eq_refl Hne)
      as Hfill.
    cbv zeta in Hfill. cbn [f_data] in Hfill.
    assert (get_gcid_piece_size E (N.of_nat (length data)) ≠ 0%N) as HP' by (subst P; lia).
    rewrite choose_buf_size_spec, omap_truthy_hints, Hone in Hfill by done.
    cbn [replicate] in Hfill. fold P in Hfill.
    eexists _, _. split; [exact Hfill|]. split; [|by apply concat_pieces].
    pose proof (fed_hashers_lookup (TestContext_new p) P data _ ts Hts) as Hlook.
    rewrite digest_feed_initial, name_initial_hasher in Hlook by done.
    destruct (is_gcid ts); [exact Hlook|done].
Qed.

Lemma gcid_digest_of_file_witness :
  ∃ tr' ctx',
    TestSets.__context_fill_hashs small_pieces (TestSets.new [names; sha1s; gcids])
      (TestContext_new "/tmp/abc.txt") [] = (tr', Ok ctx')
    ∧ hashs ctx' !! "gcid" = Some "5c7fa77d13b7ea105740456b91a2d03043a91a12"
    ∧ pieces 4 (f_data hello)
      = bytes_of_string <$> ["hell"; "o wo"; "rld"].
Proof.
  destruct (gcid_digest_of_file small_pieces "/tmp/abc.txt" (f_data hello) [])
    as (_ & _ & _ & H).
  destruct (H (TestSets.new [names; sha1s; gcids])) as (tr' & ctx' & H1 & H2 & _);
    [vm_compute; reflexivity | vm_compute; lia | reflexivity |].
  exists tr', ctx'. split; [exact H1|]. split; [|vm_compute; reflexivity].
  rewrite H2. vm_compute. reflexivity.
Defined.

(** C2, as amended. For a path whose content can be read, with a
    positive default buffer and piece size. With at least one pattern set
    active, and at most one gcid set among them or a name set that rejects
    the path, [TestSets.test] returns a boolean, and it returns [True]
    exactly when the test of every pattern set succeeds on the name of the
    file and on the digests of its content. With two or more gcid sets
    active and every name set accepting the path, it raises the assertion
    error of line 147 after one [getsize] for each gcid set. With no
    pattern set active it raises the assertion error of line 165. *)
Theorem test_true_iff_all_pass E tss p f tr :
  fs E !! p = Some f → f_readable f = true → f_bad_read f = None →
  DEFAULT_BUFFER_SIZE E ≠ 0%N →
  get_gcid_piece_size E (N.of_nat (length (f_data f))) ≠ 0%N →
  (TestSets.__tests_sets tss ≠ [] →
   length (filter (λ ts, is_gcid ts) (TestSets.__tests_sets tss)) ≤ 1
   ∨ ¬ Forall (λ ts, TestSet.test ts (TestContext_new p) = Ok true)
         (TestSets.__metadata_tests_sets tss) →
   ∃ tr' b,
     TestSets.test E tss p tr = (tr', Ok b)
     ∧ (b = true ↔
        Forall (λ ts, TestSet.test ts {| path := p; hashs := spec_digests E (f_data f) |}
                      = Ok true)
               (TestSets.__tests_sets tss)))
  ∧ (2 ≤ length (filter (λ ts, is_gcid ts) (TestSets.__tests_sets tss)) →
     Forall (λ ts, TestSet.test ts (TestContext_new p) = Ok true)
       (TestSets.__metadata_tests_sets tss) →
     TestSets.test E tss p tr
     = (tr ++ replicate (length (filter (λ ts, is_gcid ts) (TestSets.__tests_sets tss)))
                (Getsize p),
        Raise (AssertionError "TODO")))
  ∧ (TestSets.__tests_sets tss = [] →
     TestSets.test E tss p tr = (tr, Raise (AssertionError EmptyString))).
Proof.
  intros Hf Hr Hbad HD HP. split; [|split].
  - intros Hne Hcase.
    set (spec := {| path := p; hashs := spec_digests E (f_data f) |}).
    rewrite test_unfold by done. rewrite IO_bind_eq. unfold lift at 1.
    assert (Hiff : Forall (λ ts, TestSet.test ts spec = Ok true) (TestSets.__tests_sets tss)
                   ↔ TestSets.all_test spec (TestSets.__metadata_tests_sets tss) = Ok true
                     ∧ TestSets.all_test spec (TestSets.__content_tests_sets tss) = Ok true)
      by (by rewrite Forall_metadata_content, <- !all_test_true).
    assert (Hmeta : TestSets.all_test (TestContext_new p) (TestSets.__metadata_tests_sets tss)
                    = TestSets.all_test spec (TestSets.__metadata_tests_sets tss))
      by apply all_test_metadata_any_hashs.
    rewrite Hmeta.
    destruct (all_test_Ok spec (TestSets.__metadata_tests_sets tss)) as [m Hm];
      [apply metadata_tests_Ok|].
    rewrite Hm. destruct m; cbn [negb].
    2:{ eexists _, _. split; [by rewrite IO_ret_eq|]. rewrite Hiff, Hm.
        split; [done|]. by intros [? _]. }
    destruct Hcase as [Hg|Hrej].
    2:{ destruct Hrej. apply all_test_true. by rewrite Hmeta. }
    rewrite IO_bind_eq.
    destruct (decide (TestSets.__content_tests_sets tss = [])) as [Hnil|Hcts].
    { unfold TestSets.__context_fill_hashs. rewrite Hnil, IO_ret_eq, IO_bind_eq.
      eexists _, _. split; [reflexivity|]. by rewrite Hiff, Hm, Hnil. }
    rewrite <- filter_is_gcid_content in Hg.
    pose proof (fill_hashs_readable E tss (TestContext_new p) f tr Hf Hr Hbad Hcts)
      as Hfill. cbv zeta in Hfill.
    rewrite (choose_buf_size_at_most_one E _ _ HP Hg) in Hfill. cbn [path] in Hfill.
    rewrite Hfill, IO_bind_eq. unfold lift at 1.
    set (B := if decide _ then _ else _) in *.
    assert (0 < N.to_nat B) as HB by (subst B; case_decide; lia).
    set (ctx' := foldl TestSets.store_digest _ _).
    assert (Forall (λ ts, TestSet.test ts ctx' = TestSet.test ts spec)
                   (TestSets.__content_tests_sets tss)) as Hsame.
    { apply Forall_forall. intros ts Hts.
      assert (TestSet.is_test_content ts) as Hc
        by (by apply list_elem_of_filter in Hts as [? _]).
      rewrite (test_content_lookup ts ctx' _ Hc (fed_hashers_lookup _ _ _ _ ts Hts)).
      rewrite (test_content_lookup ts spec _ Hc (spec_digests_lookup E (f_data f) ts)).
      rewrite digest_feed_initial by done.
      destruct (is_gcid ts) eqn:Hgc; [|done].
      subst B. rewrite decide_False; [done|].
      intros Hfl.
      assert (ts ∈ filter (λ ts, is_gcid ts) (TestSets.__content_tests_sets tss)) as Hin
        by (apply list_elem_of_filter; by rewrite Hgc).
      rewrite Hfl in Hin. by apply elem_of_nil in Hin. }
    rewrite (all_test_ext _ _ _ Hsame).
    destruct (all_test_Ok spec (TestSets.__content_tests_sets tss)) as [c Hc].
    { apply Forall_forall. intros ts Hts.
      assert (TestSet.is_test_content ts) as Hc
        by (by apply list_elem_of_filter in Hts as [? _]).
      rewrite (test_content_lookup ts spec _ Hc (spec_digests_lookup E (f_data f) ts)). eauto. }
    rewrite Hc. eexists _, c. split; [by destruct c|].
    rewrite Hiff, Hm, Hc. split; [by intros ->|by intros [_ [= ->]]].
  - intros Hg Hall.
    assert (TestSets.__tests_sets tss ≠ []) as Hne.
    { intros Hnil. rewrite Hnil in Hg. simpl in Hg. lia. }
    assert (TestSets.__content_tests_sets tss ≠ []) as Hcts.
    { intros Hnil. rewrite <- filter_is_gcid_content, Hnil in Hg. simpl in Hg. lia. }
    rewrite test_unfold by done. rewrite IO_bind_eq. unfold lift at 1.
    apply all_test_true in Hall. rewrite Hall. cbn [negb]. rewrite IO_bind_eq.
    pose proof (fill_hashs_readable E tss (TestContext_new p) f tr Hf Hr Hbad Hcts)
      as Hfill. cbv zeta in Hfill. cbn [path] in Hfill.
    rewrite choose_buf_size_conflict in Hfill
      by (done || by rewrite filter_is_gcid_content).
    by rewrite Hfill, filter_is_gcid_content.
  - intros Hnil. unfold TestSets.test. by rewrite Hnil.
Qed.

Lemma test_true_iff_all_pass_witness :
  ∃ tr' b,
    TestSets.test small_pieces (TestSets.new [names; sha1s; gcids]) "/tmp/abc.txt" []
    = (tr', Ok b)
    ∧ (b = true ↔
       Forall (λ ts, TestSet.test ts {| path := "/tmp/abc.txt";
                                        hashs := spec_digests small_pieces (f_data hello) |}
                     = Ok true)
              [names; sha1s; gcids]).
Proof.
  apply (test_true_iff_all_pass small_pieces (TestSets.new [names; sha1s; gcids])
           "/tmp/abc.txt" hello []).
  - vm_compute. reflexivity.
  - reflexivity.
  - reflexivity.
  - discriminate.
  - discriminate.
  - discriminate.
  - left. vm_compute. lia.
Defined.

(** C2 as the specification states it fails on two gcid sets: the file is
    readable and the test of each set succeeds on its digests, yet
    [TestSets.test] raises the assertion error of line 147 and returns
    nothing. *)
Lemma two_gcid_sets_raise :
  fs large_pieces !! "/tmp/abc.txt" = Some hello
  ∧ f_readable hello = true ∧ f_bad_read hello = None
  ∧ Forall (λ ts, TestSet.test ts {| path := "/tmp/abc.txt";
                                     hashs := spec_digests large_pieces (f_data hello) |}
                  = Ok true)
           [gcids_a; gcids_b]
  ∧ TestSets.test large_pieces (TestSets.new [gcids_a; gcids_b]) "/tmp/abc.txt" []
    = ([Getsize "/tmp/abc.txt"; Getsize "/tmp/abc.txt"], Raise (AssertionError "TODO")).
Proof.
  repeat split; try (vm_compute; reflexivity).
  repeat constructor; vm_compute; reflexivity.
Qed.

(** C3. When the test of a metadata-only pattern set reports [False],
    [TestSets.test] returns [False] and the record of system calls is as
    it was: the size of the file is not asked for, the file is not opened
    and nothing is read, so no digest is computed. *)
Theorem metadata_rejection_reads_nothing E tss p tr ts :
  ts ∈ TestSets.__metadata_tests_sets tss →
  TestSet.test ts (TestContext_new p) = Ok false →
  TestSets.test E tss p tr = (tr, Ok false).
Proof.
  intros Hin Hfalse.
  rewrite test_unfold.
  2:{ apply list_elem_of_filter in Hin as [_ Hin]. by eapply tests_sets_nonempty. }
  rewrite IO_bind_eq. unfold lift at 1. unfold TestContext_new in *.
  by rewrite (all_test_false _ _ ts (metadata_tests_Ok tss p ∅) Hin Hfalse).
Qed.

Lemma metadata_rejection_reads_nothing_witness :
  TestSets.test small_pieces (TestSets.new [sha1s; names]) "/tmp/ABD.txt" [] = ([], Ok false).
Proof.
  apply (metadata_rejection_reads_nothing small_pieces (TestSets.new [sha1s; names])
           "/tmp/ABD.txt" [] names).
  - apply list_elem_of_filter. split; [simpl; tauto|]. right. left.
  - vm_compute. reflexivity.
Defined.

(** C4, as amended. On a readable file, filling the digests fails with
    the assertion error exactly when the content-based pattern sets return
    more than one buffer size that is not empty, equal or not; with
    exactly one such size the file is read through a buffer of that size,
    and with none through a buffer of the default size. *)
Theorem buffer_size_selection E tss p f tr :
  fs E !! p = Some f → f_readable f = true → f_bad_read f = None →
  TestSets.__content_tests_sets tss ≠ [] →
  let cts := TestSets.__content_tests_sets tss in
  let ctx := TestContext_new p in
  ∃ tr1 hints,
    mapM (λ ts, TestSet.get_buffer_size E ts p) cts tr = (tr1, Ok hints) ∧
    let sizes := omap TestSets.truthy hints in
    let run B :=
      (tr1 ++ Open p :: replicate (S (length (pieces (N.to_nat B) (f_data f)))) (Readinto p),
       Ok (foldl TestSets.store_digest ctx
             (feed (N.to_nat B) (f_data f) <$> (initial_hasher <$> cts)))) in
    (2 ≤ length sizes →
       TestSets.__context_fill_hashs E tss ctx tr = (tr1, Raise (AssertionError "TODO")))
    ∧ (∀ b, sizes = [b] → TestSets.__context_fill_hashs E tss ctx tr = run b)
    ∧ (sizes = [] → TestSets.__context_fill_hashs E tss ctx tr = run (DEFAULT_BUFFER_SIZE E)).
Proof.
  intros Hf Hr Hbad Hne cts ctx.
  eexists _, _. split; [by apply mapM_get_buffer_size|].
  cbv zeta.
  pose proof (fill_hashs_readable E tss ctx f tr Hf Hr Hbad Hne) as Hfill.
  cbv zeta in Hfill. rewrite choose_buf_size_spec in Hfill. fold cts in Hfill.
  destruct (omap TestSets.truthy _) as [|b [|b' bs]].
  - split; [simpl; lia|]. split; [done|]. by intros _.
  - split; [simpl; lia|]. split; [by intros ? [= <-]|done].
  - split; [by intros _|]. split; [done|done].
Qed.

Lemma buffer_size_selection_witness :
  (TestSets.__context_fill_hashs small_pieces (TestSets.new [sha1s; gcids])
     (TestContext_new "/tmp/abc.txt") []).1
  = [Getsize "/tmp/abc.txt"; Open "/tmp/abc.txt"; Readinto "/tmp/abc.txt";
     Readinto "/tmp/abc.txt"; Readinto "/tmp/abc.txt"; Readinto "/tmp/abc.txt"].
Proof.
  destruct (buffer_size_selection small_pieces (TestSets.new [sha1s; gcids])
              "/tmp/abc.txt" hello [])
    as (tr1 & hints & Hm & _ & Hone & _);
    [vm_compute; reflexivity | reflexivity | reflexivity | discriminate |].
  vm_compute in Hm. injection Hm as <- <-.
  rewrite (Hone 4%N eq_refl). vm_compute. reflexivity.
Defined.

(** C4 as the specification states it fails on two gcid sets: both return
    the same buffer size, one distinct value, and filling the digests
    raises the assertion error all the same. *)
Lemma equal_hints_raise :
  mapM (λ ts, TestSet.get_buffer_size large_pieces ts "/tmp/abc.txt") [gcids_a; gcids_b] []
  = ([Getsize "/tmp/abc.txt"; Getsize "/tmp/abc.txt"], Ok [Some 262144%N; Some 262144%N])
  ∧ TestSets.choose_buf_size large_pieces [Some 262144%N; Some 262144%N]
    = Raise (AssertionError "TODO")
  ∧ TestSets.__context_fill_hashs large_pieces (TestSets.new [gcids_a; gcids_b])
      (TestContext_new "/tmp/abc.txt") []
    = ([Getsize "/tmp/abc.txt"; Getsize "/tmp/abc.txt"], Raise (AssertionError "TODO")).
Proof. repeat split; vm_compute; reflexivity. Qed.

(** C5. Whatever contexts [add] is called with, one after the other, on a
    pattern set just built from its seed lines, the accepted set and the
    observed set stay disjoint, and [all_rows] lists exactly the members
    of the two sets in strictly ascending order, hence with no duplicate. *)
Theorem accepted_observed_disjoint c nm lines ctxs :
  let ts := foldl TestSet.after_add (TestSet.new c nm lines) ctxs in
  TestSet._dataset ts ## TestSet._adding_rows ts
  ∧ StronglySorted (strict String.le) (TestSet.all_rows ts)
  ∧ NoDup (TestSet.all_rows ts)
  ∧ ∀ v, v ∈ TestSet.all_rows ts ↔ v ∈ TestSet._dataset ts ∪ TestSet._adding_rows ts.
Proof.
  intros ts. split; [|split; [|split]].
  - apply foldl_after_add_disjoint. apply disjoint_empty_r.
  - apply sorted_StronglySorted, NoDup_elements.
  - apply sorted_NoDup, NoDup_elements.
  - intros v. unfold TestSet.all_rows. by rewrite sorted_elem_of, elem_of_elements.
Qed.

(** C6. The accepted set of every variant holds the stripped seed lines
    that are not empty, lower-cased for every variant but the exact name
    one; the case-insensitive name variant accepts a file exactly when
    some such line equals its base name once both are lower-cased; and the
    lines "abc.txt", "" and "  def.txt  " give the accepted set
    {"abc.txt", "def.txt"}. *)
Theorem seed_normalization (c : set_type) (nm : string) (lines : list string) :
  (∀ v, v ∈ TestSet._dataset (TestSet.new c nm lines) ↔
        ∃ line, line ∈ lines ∧ strip line ≠ EmptyString ∧
                v = if decide (c = NameTestSet) then strip line else lower (strip line))
  ∧ (∀ ctx, TestSet.test (TestSet.new INameTestSet nm lines) ctx = Ok true ↔
        ∃ line, line ∈ lines ∧ strip line ≠ EmptyString
                ∧ lower (strip line) = lower (basename (path ctx)))
  ∧ TestSet._dataset (TestSet.new c nm ["abc.txt"; EmptyString; "  def.txt  "])
    = {[ "abc.txt"; "def.txt" ]}.
Proof.
  split; [|split].
  - intros v. apply elem_of_parpare_set.
  - intros ctx.
    change (TestSet.test (TestSet.new INameTestSet nm lines) ctx)
      with (Ok (bool_decide (lower (basename (path ctx))
                             ∈ TestSet._parpare_set INameTestSet lines))).
    split.
    + intros [= H%bool_decide_eq_true]. apply (elem_of_parpare_set INameTestSet) in H.
      destruct H as (l & ? & ? & ?). eauto.
    + intros (l & ? & ? & ?). f_equal. apply bool_decide_eq_true.
      apply (elem_of_parpare_set INameTestSet). eauto.
  - destruct c; vm_compute; reflexivity.
Qed.

(** C7. Calling [TestSets.add] a second time on the same path, the files
    unchanged, leaves every pattern set as the first call left it, and
    ends as the first call ended. *)
Theorem add_twice_same_sets E tss p tr :
  let once := TestSets.add E tss p tr in
  let twice := TestSets.add E once.1.1 p once.1.2 in
  twice.1.1 = once.1.1 ∧ twice.2 = once.2.
Proof.
  cbv zeta. destruct tss as [[|ts0 l]]; [done|].
  change {| TestSets.__tests_sets := ts0 :: l |} with (TestSets.new (ts0 :: l)).
  rewrite (add_spec_cons E ts0 l p tr).
  destruct (TestSets.__context_fill_hashs E _ (TestContext_new p) tr)
    as [tr1 [ctx'|e]] eqn:Hfill; cbn [fst snd].
  - set (g := λ ts, TestSet.after_add ts ctx').
    assert (Hg : ∀ ts, TestSet.cls (g ts) = TestSet.cls ts)
      by (intros ts; apply after_add_cls).
    change (g <$> ts0 :: l) with (g ts0 :: (g <$> l)).
    rewrite (add_spec_cons E (g ts0) (g <$> l) p tr1).
    change (g ts0 :: (g <$> l)) with (g <$> ts0 :: l).
    rewrite (fill_hashs_fmap E g (ts0 :: l) _ Hg).
    pose proof (fill_hashs_result_any_trace E (TestSets.new (ts0 :: l))
                  (TestContext_new p) tr1 tr) as Hres.
    rewrite Hfill in Hres. cbn [snd] in Hres.
    destruct (TestSets.__context_fill_hashs E _ (TestContext_new p) tr1) as [tr2 r2].
    cbn [snd] in Hres. subst r2. cbn [fst snd].
    split; [|done]. f_equal.
    rewrite <- list_fmap_compose. apply list_fmap_ext.
    intros _ ts _. apply after_add_idemp.
  - rewrite (add_spec_cons E ts0 l p tr1).
    pose proof (fill_hashs_result_any_trace E (TestSets.new (ts0 :: l))
                  (TestContext_new p) tr1 tr) as Hres.
    rewrite Hfill in Hres. cbn [snd] in Hres.
    destruct (TestSets.__context_fill_hashs E _ (TestContext_new p) tr1) as [tr2 r2].
    cbn [snd] in Hres. by subst r2.
Qed.

(** C8. Once the digests were filled without an error, the key of every
    content-based pattern set is in the digest map, so neither
    [TestSets.test] nor [TestSets.add] ever raises the [KeyError] of a
    missing digest. *)
Theorem missing_digest_unreachable E tss p tr :
  (∀ tr' ctx',
     TestSets.__context_fill_hashs E tss (TestContext_new p) tr = (tr', Ok ctx') →
     Forall (λ ts, ∃ v, TestSet.hashs_getitem ctx' (name (initial_hasher ts)) = Ok v)
            (TestSets.__content_tests_sets tss))
  ∧ (∀ key, (TestSets.test E tss p tr).2 ≠ Raise (KeyError key))
  ∧ (∀ key, (TestSets.add E tss p tr).2 ≠ Raise (KeyError key)).
Proof.
  split; [|split].
  - intros tr' ctx' [_ Hkeys]%fill_hashs_cases. apply Forall_forall.
    intros ts [d Hd]%Hkeys. unfold TestSet.hashs_getitem. rewrite Hd. eauto.
  - intros key. destruct (TestSets.test E tss p tr) as [tr' r] eqn:Ht.
    apply test_result in Ht. simpl. intros ->.
    destruct Ht as [|[|]]; done.
  - intros key. destruct (TestSets.add E tss p tr) as [[tss' tr'] r] eqn:Ha.
    simpl. intros ->. apply add_raise in Ha as [_ [|[|]]]; done.
Qed.

Lemma missing_digest_unreachable_witness :
  ∃ ctx',
    (TestSets.__context_fill_hashs small_pieces (TestSets.new [names; sha1s; gcids])
       (TestContext_new "/tmp/abc.txt") []).2 = Ok ctx'
    ∧ Forall (λ ts, ∃ v, TestSet.hashs_getitem ctx' (name (initial_hasher ts)) = Ok v)
             [sha1s; gcids].
Proof.
  destruct (TestSets.__context_fill_hashs small_pieces (TestSets.new [names; sha1s; gcids])
              (TestContext_new "/tmp/abc.txt") []) as [tr' [ctx'|e]] eqn:Hfill;
    [|vm_compute in Hfill; discriminate].
  exists ctx'. split; [reflexivity|].
  exact (proj1 (missing_digest_unreachable small_pieces (TestSets.new [names; sha1s; gcids])
                  "/tmp/abc.txt" []) tr' ctx' Hfill).
Defined.

(** C9. When [TestSets.add] raises, and so when the file cannot be opened
    or a read fails, no pattern set was touched: the evaluator is as it
    was before the call. *)
Theorem add_raise_leaves_sets E tss p tr tss' tr' e :
  TestSets.add E tss p tr = (tss', tr', Raise e) → tss' = tss.
Proof. by intros [? _]%add_raise. Qed.

Lemma add_raise_leaves_sets_witness :
  (TestSets.add small_pieces (TestSets.new [names; sha1s]) "/tmp/locked.bin" []).2
  = Raise (OSError "/tmp/locked.bin")
  ∧ (TestSets.add small_pieces (TestSets.new [names; sha1s]) "/tmp/locked.bin" []).1.1
    = TestSets.new [names; sha1s].
Proof.
  split; [vm_compute; reflexivity|].
  apply (add_raise_leaves_sets small_pieces (TestSets.new [names; sha1s])
           "/tmp/locked.bin" [] _ [Open "/tmp/locked.bin"] (OSError "/tmp/locked.bin")).
  vm_compute. reflexivity.
Defined.

(** C10. A SHA-1 or gcid pattern set seeded with lines in any case
    accepts the same files as one seeded with the lower-cased lines,
    whatever other sets are active beside it; and the digest the
    evaluator stores for a hasher is its lower-case hexadecimal form. *)
Theorem digest_seeds_ignore_case E pre post nm lines p tr :
  TestSets.test E (TestSets.new (pre ++ TestSet.new Sha1TestSet nm (lower <$> lines) :: post)) p tr
  = TestSets.test E (TestSets.new (pre ++ TestSet.new Sha1TestSet nm lines :: post)) p tr
  ∧ TestSets.test E (TestSets.new (pre ++ TestSet.new GcidTestSet nm (lower <$> lines) :: post)) p tr
    = TestSets.test E (TestSets.new (pre ++ TestSet.new GcidTestSet nm lines :: post)) p tr
  ∧ ∀ h : hasher, hashs (TestSets.store_digest (TestContext_new p) h) !! name h
                  = Some (hex (digest h)).
Proof.
  split; [|split].
  - by rewrite new_lower.
  - by rewrite new_lower.
  - intros h. cbn [TestSets.store_digest hashs]. by rewrite lookup_insert_eq, lower_hex.
Qed.


(** * Further properties of the code *)

(** ** The evaluator without content sets *)

Lemma metadata_all_of_no_content tss :
  TestSets.__content_tests_sets tss = [] →
  TestSets.__metadata_tests_sets tss = TestSets.__tests_sets tss.
Proof.
  unfold TestSets.__content_tests_sets, TestSets.__metadata_tests_sets.
  induction (TestSets.__tests_sets tss) as [|ts l IH]; [done|].
  rewrite !filter_cons. destruct (decide (TestSet.is_test_content ts)) as [Hc|Hc].
  - done.
  - intros H. rewrite decide_True by done. by rewrite IH.
Qed.

Lemma fill_hashs_no_content E tss ctx tr :
  TestSets.__content_tests_sets tss = [] →
  TestSets.__context_fill_hashs E tss ctx tr = (tr, Ok ctx).
Proof. intros H. unfold TestSets.__context_fill_hashs. by rewrite H. Qed.

Lemma test_metadata_value ts p hs :
  ¬ TestSet.is_test_content ts →
  TestSet.test ts {| path := p; hashs := hs |}
  = Ok (bool_decide ((match TestSet.cls ts with
                      | NameTestSet => basename p
                      | _ => lower (basename p)
                      end) ∈ TestSet._dataset ts)).
Proof.
  unfold TestSet.is_test_content, TestSet.test, TestSet._read_value.
  destruct (TestSet.cls ts); simpl; intros H; try done; by destruct H.
Qed.

(** X1. When every active set is a name set, [TestSets.test] and
    [TestSets.add] make no system call. [test] returns a boolean, true
    exactly when every set accepts the base name of the path (lower-cased
    for [INameTestSet]); [add] returns after every set has observed its
    value. *)
Theorem metadata_only_no_system_call E tss p tr :
  TestSets.__tests_sets tss ≠ [] →
  TestSets.__content_tests_sets tss = [] →
  (∃ b, TestSets.test E tss p tr = (tr, Ok b)
        ∧ (b = true ↔
           ∀ ts, ts ∈ TestSets.__tests_sets tss →
                 (match TestSet.cls ts with
                  | NameTestSet => basename p
                  | _ => lower (basename p)
                  end) ∈ TestSet._dataset ts))
  ∧ TestSets.add E tss p tr
    = (TestSets.new ((λ ts, TestSet.after_add ts (TestContext_new p))
                       <$> TestSets.__tests_sets tss), tr, Ok ()).
Proof.
  intros Hne Hnil. split.
  - rewrite test_unfold by done. rewrite IO_bind_eq. unfold lift at 1.
    destruct (all_test_Ok (TestContext_new p) (TestSets.__metadata_tests_sets tss))
      as [m Hm]; [apply metadata_tests_Ok|].
    rewrite Hm. exists m. split.
    + destruct m; cbn [negb]; [|by rewrite IO_ret_eq].
      rewrite IO_bind_eq, fill_hashs_no_content, IO_bind_eq by done.
      unfold lift. by rewrite Hnil.
    + assert (m = true ↔ TestSets.all_test (TestContext_new p)
                           (TestSets.__metadata_tests_sets tss) = Ok true) as ->
        by (rewrite Hm; split; [by intros ->|by intros [= ->]]).
      rewrite all_test_true, (metadata_all_of_no_content tss Hnil), Forall_forall.
      pose proof (metadata_tests_sets_Forall tss) as Hmeta.
      rewrite (metadata_all_of_no_content tss Hnil), Forall_forall in Hmeta.
      split; intros H ts Hts; specialize (H ts Hts); specialize (Hmeta ts Hts).
      * unfold TestContext_new in H. rewrite test_metadata_value in H by done.
        injection H as H. by apply bool_decide_eq_true in H.
      * unfold TestContext_new. rewrite test_metadata_value by done.
        f_equal. by apply bool_decide_eq_true.
  - rewrite add_spec. destruct (TestSets.__tests_sets tss) as [|ts0 l] eqn:Hl; [done|].
    by rewrite fill_hashs_no_content.
Qed.

Lemma metadata_only_no_system_call_witness :
  (∃ b, TestSets.test small_pieces (TestSets.new [names]) "/tmp/abc.txt" [] = ([], Ok b)
        ∧ (b = true ↔
           ∀ ts, ts ∈ TestSets.__tests_sets (TestSets.new [names]) →
                 (match TestSet.cls ts with
                  | NameTestSet => basename "/tmp/abc.txt"
                  | _ => lower (basename "/tmp/abc.txt")
                  end) ∈ TestSet._dataset ts))
  ∧ TestSets.add small_pieces (TestSets.new [names]) "/tmp/abc.txt" []
    = (TestSets.new ((λ ts, TestSet.after_add ts (TestContext_new "/tmp/abc.txt"))
                       <$> TestSets.__tests_sets (TestSets.new [names])), [], Ok ()).
Proof.
  apply (metadata_only_no_system_call small_pieces (TestSets.new [names]) "/tmp/abc.txt" []).
  - discriminate.
  - reflexivity.
Defined.

(** [test] looks at the class and the accepted set only *)
Lemma read_value_Ok_dataset ts1 ts2 ctx :
  TestSet.cls ts1 = TestSet.cls ts2 → TestSet._dataset ts1 = TestSet._dataset ts2 →
  TestSet.test ts1 ctx = TestSet.test ts2 ctx.
Proof.
  intros Hc Hd. unfold TestSet.test. rewrite (read_value_cls ts1 ts2 ctx Hc).
  by rewrite Hd.
Qed.

Lemma after_add_dataset ts ctx :
  TestSet._dataset (TestSet.after_add ts ctx) = TestSet._dataset ts.
Proof.
  unfold TestSet.after_add. destruct (TestSet.add ts ctx) eqn:H; [|done].
  by apply add_dataset in H as (_ & _ & ?).
Qed.

Lemma metadata_tests_sets_fmap (g : TestSet.t → TestSet.t) l :
  (∀ ts, TestSet.cls (g ts) = TestSet.cls ts) →
  TestSets.__metadata_tests_sets (TestSets.new (g <$> l))
  = g <$> TestSets.__metadata_tests_sets (TestSets.new l).
Proof.
  intros Hg. unfold TestSets.__metadata_tests_sets. simpl.
  induction l as [|ts l IH]; [done|].
  rewrite fmap_cons, !filter_cons, IH, (is_test_content_cls _ _ (Hg ts)).
  by destruct (decide _).
Qed.

Lemma all_test_fmap (g : TestSet.t → TestSet.t) ctx l :
  (∀ ts, TestSet.cls (g ts) = TestSet.cls ts) →
  (∀ ts, TestSet._dataset (g ts) = TestSet._dataset ts) →
  TestSets.all_test ctx (g <$> l) = TestSets.all_test ctx l.
Proof.
  intros Hc Hd. induction l as [|ts l IH]; [done|].
  rewrite fmap_cons. cbn [TestSets.all_test].
  by rewrite (read_value_Ok_dataset (g ts) ts ctx (Hc ts) (Hd ts)), IH.
Qed.

Lemma test_fmap E (g : TestSet.t → TestSet.t) l p tr :
  (∀ ts, TestSet.cls (g ts) = TestSet.cls ts) →
  (∀ ts, TestSet._dataset (g ts) = TestSet._dataset ts) →
  TestSets.test E (TestSets.new (g <$> l)) p tr = TestSets.test E (TestSets.new l) p tr.
Proof.
  intros Hc Hd. destruct l as [|ts0 l]; [done|].
  rewrite !test_unfold by done.
  rewrite (metadata_tests_sets_fmap g _ Hc), (content_tests_sets_fmap g _ Hc).
  rewrite (fill_hashs_fmap E g _ _ Hc), (all_test_fmap g _ _ Hc Hd).
  rewrite !IO_bind_eq. unfold lift at 1 3.
  destruct (TestSets.all_test _ _) as [[]|e]; cbn [negb]; try done.
  rewrite !IO_bind_eq.
  destruct (TestSets.__context_fill_hashs _ _ _ _) as [tr1 [ctx'|e]]; [|done].
  rewrite !IO_bind_eq. unfold lift. by rewrite (all_test_fmap g _ _ Hc Hd).
Qed.

(** X2. What [TestSets.add] learns is not used for matching by the same
    evaluator: after [add] on any path, whether it returned or raised,
    [test] gives on every path the result it gave before. *)
Theorem add_keeps_matching E tss p tr q tr' :
  TestSets.test E (TestSets.add E tss p tr).1.1 q tr' = TestSets.test E tss q tr'.
Proof.
  rewrite add_spec. destruct tss as [l]. cbn [TestSets.__tests_sets].
  destruct l as [|ts0 l]; [done|].
  destruct (TestSets.__context_fill_hashs _ _ _ _) as [tr1 [ctx'|e]]; [|done].
  cbn [fst]. apply (test_fmap E (λ ts, TestSet.after_add ts ctx') (ts0 :: l)).
  - intros ts. apply after_add_cls.
  - intros ts. apply after_add_dataset.
Qed.

Lemma test_true_inv E tss p tr tr' :
  TestSets.test E tss p tr = (tr', Ok true) →
  ∀ ts, ts ∈ TestSets.__tests_sets tss → ∃ ctx, TestSet.test ts ctx = Ok true.
Proof.
  intros Ht ts Hts.
  assert (TestSets.__tests_sets tss ≠ []) as Hne by (by eapply tests_sets_nonempty).
  rewrite test_unfold in Ht by done. rewrite IO_bind_eq in Ht. unfold lift at 1 in Ht.
  destruct (TestSets.all_test _ (TestSets.__metadata_tests_sets tss)) as [[]|e] eqn:Hm;
    cbn [negb] in Ht; try done.
  rewrite IO_bind_eq in Ht.
  destruct (TestSets.__context_fill_hashs _ _ _ _) as [tr1 [ctx'|e]]; [|done].
  rewrite IO_bind_eq in Ht. unfold lift at 1 in Ht.
  destruct (TestSets.all_test ctx' _) as [[]|e] eqn:Hc; cbn [negb] in Ht; try done.
  apply all_test_true in Hm, Hc. rewrite Forall_forall in Hm, Hc.
  destruct (decide (TestSet.is_test_content ts)) as [Hcont|Hmeta].
  - exists ctx'. apply Hc. by apply list_elem_of_filter.
  - exists (TestContext_new p). apply Hm. by apply list_elem_of_filter.
Qed.

(** X3. While one active set accepts nothing (a set built from no line,
    or from blank lines only), [TestSets.test] returns true for no path. *)
Theorem empty_set_never_matches E tss p tr ts :
  ts ∈ TestSets.__tests_sets tss → TestSet._dataset ts = ∅ →
  (TestSets.test E tss p tr).2 ≠ Ok true.
Proof.
  intros Hts Hempty Htrue.
  destruct (TestSets.test E tss p tr) as [tr' r] eqn:Ht. simpl in Htrue. subst r.
  destruct (test_true_inv _ _ _ _ _ Ht ts Hts) as [ctx Hctx].
  unfold TestSet.test in Hctx. destruct (TestSet._read_value ts ctx) as [v|e]; [|done].
  simpl in Hctx. injection Hctx as Hv. apply bool_decide_eq_true in Hv.
  rewrite Hempty in Hv. by apply not_elem_of_empty in Hv.
Qed.

Lemma empty_set_never_matches_witness :
  (TestSets.test small_pieces (TestSets.new [empty_names; sha1s]) "/tmp/abc.txt" []).2
  ≠ Ok true.
Proof.
  apply (empty_set_never_matches small_pieces (TestSets.new [empty_names; sha1s])
           "/tmp/abc.txt" [] empty_names).
  - left.
  - vm_compute. reflexivity.
Defined.

(** ** Files that cannot be read, and two gcid sets *)

(** [__context_fill_hashs] when [stat] works *)
Lemma fill_hashs_found E tss ctx f tr :
  fs E !! path ctx = Some f →
  TestSets.__content_tests_sets tss ≠ [] →
  let cts := TestSets.__content_tests_sets tss in
  let size := N.of_nat (length (f_data f)) in
  let tr1 := tr ++ replicate (length (filter (λ ts, is_gcid ts) cts)) (Getsize (path ctx)) in
  TestSets.__context_fill_hashs E tss ctx tr =
  match TestSets.choose_buf_size E (hint_of E size <$> cts) with
  | Raise e => (tr1, Raise e)
  | Ok B =>
      if f_readable f then
        (hashers' ← TestSets.read_loop (S (length (f_data f))) (path ctx) f (N.to_nat B) 0
                      (f_data f) (initial_hasher <$> cts);
         mret (foldl TestSets.store_digest ctx hashers')) (tr1 ++ [Open (path ctx)])
      else (tr1 ++ [Open (path ctx)], Raise (OSError (path ctx)))
  end.
Proof.
  intros Hf Hne cts size tr1. subst cts tr1 size.
  unfold TestSets.__context_fill_hashs.
  pose proof (content_tests_sets_Forall tss) as Hall.
  destruct (TestSets.__content_tests_sets tss) as [|ts0 cts']; [done|].
  rewrite IO_bind_eq, (mapM_get_buffer_size _ _ _ _ _ Hf).
  rewrite IO_bind_eq. unfold lift at 1.
  destruct (TestSets.choose_buf_size _ _) as [B|e]; [|done].
  rewrite IO_bind_eq. unfold lift at 1.
  rewrite mapM_get_content_hasher by done.
  rewrite IO_bind_eq. unfold open. rewrite IO_bind_eq. unfold syscall at 1.
  rewrite Hf. destruct (f_readable f); [by rewrite IO_ret_eq|done].
Qed.

Lemma get_buffer_size_not_gcid E ts p tr :
  is_gcid ts = false → TestSet.get_buffer_size E ts p tr = (tr, Ok None).
Proof.
  unfold is_gcid, TestSet.get_buffer_size. by destruct (TestSet.cls ts).
Qed.

Lemma get_buffer_size_missing E ts p tr :
  fs E !! p = None → is_gcid ts = true →
  TestSet.get_buffer_size E ts p tr = (tr ++ [Getsize p], Raise (OSError p)).
Proof.
  unfold is_gcid, TestSet.get_buffer_size. intros Hf.
  destruct (TestSet.cls ts); try done. intros _.
  rewrite IO_bind_eq. unfold getsize. rewrite IO_bind_eq. unfold syscall at 1.
  by rewrite Hf.
Qed.

Lemma mapM_get_buffer_size_missing E l p tr :
  fs E !! p = None →
  mapM (λ ts, TestSet.get_buffer_size E ts p) l tr
  = if decide (filter (λ ts, is_gcid ts) l = [])
    then (tr, Ok (replicate (length l) None))
    else (tr ++ [Getsize p], Raise (OSError p)).
Proof.
  intros Hf. induction l as [|ts l IH]; [done|].
  rewrite mapM_IO_cons, IO_bind_eq, filter_cons.
  destruct (is_gcid ts) eqn:Hg.
  - rewrite get_buffer_size_missing by done.
    rewrite (decide_True (P := Is_true true)) by done. by rewrite decide_False.
  - rewrite get_buffer_size_not_gcid by done.
    rewrite (decide_False (P := Is_true false)) by (by intros ?).
    rewrite IO_bind_eq, IH. case_decide; [|done]. by rewrite IO_ret_eq.
Qed.

Lemma omap_truthy_None n : omap TestSets.truthy (replicate n None) = [].
Proof. induction n as [|n IH]; [done|]. by rewrite replicate_S, omap_cons. Qed.

(** On a path that does not exist the pass ends in [OSError]. *)
Lemma fill_hashs_missing E tss ctx tr :
  fs E !! path ctx = None →
  TestSets.__content_tests_sets tss ≠ [] →
  TestSets.__context_fill_hashs E tss ctx tr
  = (tr ++ [if decide (filter (λ ts, is_gcid ts) (TestSets.__content_tests_sets tss) = [])
            then Open (path ctx) else Getsize (path ctx)],
     Raise (OSError (path ctx))).
Proof.
  intros Hf Hne. unfold TestSets.__context_fill_hashs.
  pose proof (content_tests_sets_Forall tss) as Hall.
  destruct (TestSets.__content_tests_sets tss) as [|ts0 cts']; [done|].
  rewrite IO_bind_eq, (mapM_get_buffer_size_missing _ _ _ _ Hf).
  case_decide; [|done].
  rewrite IO_bind_eq. unfold lift at 1, TestSets.choose_buf_size.
  rewrite omap_truthy_None. rewrite IO_bind_eq. unfold lift at 1.
  rewrite mapM_get_content_hasher by done.
  rewrite IO_bind_eq. unfold open. rewrite IO_bind_eq. unfold syscall at 1.
  by rewrite Hf.
Qed.

Lemma length_omap_truthy_hints E size l :
  length (omap TestSets.truthy (hint_of E size <$> l))
  ≤ length (filter (λ ts, is_gcid ts) l).
Proof.
  induction l as [|ts l IH]; [done|].
  rewrite fmap_cons, omap_cons, filter_cons. unfold hint_of at 1.
  destruct (is_gcid ts); simpl.
  - destruct (_ =? _)%N; simpl; lia.
  - done.
Qed.

Lemma choose_buf_size_no_conflict E size l :
  length (filter (λ ts, is_gcid ts) l) ≤ 1 →
  ∃ B, TestSets.choose_buf_size E (hint_of E size <$> l) = Ok B.
Proof.
  intros Hg. rewrite choose_buf_size_spec.
  pose proof (length_omap_truthy_hints E size l) as Hlen.
  destruct (omap _ _) as [|b [|b' bs]]; simpl in *; eauto. lia.
Qed.

(** Two gcid sets: the pass never succeeds. *)
Lemma fill_hashs_two_gcid E tss ctx tr :
  (∀ n, get_gcid_piece_size E n ≠ 0%N) →
  2 ≤ length (filter (λ ts, is_gcid ts) (TestSets.__tests_sets tss)) →
  ∃ e, (TestSets.__context_fill_hashs E tss ctx tr).2 = Raise e.
Proof.
  intros HP Hg. rewrite <- filter_is_gcid_content in Hg.
  assert (TestSets.__content_tests_sets tss ≠ []) as Hne.
  { intros Hnil. rewrite Hnil in Hg. simpl in Hg. lia. }
  destruct (fs E !! path ctx) as [f|] eqn:Hf.
  - rewrite (fill_hashs_found E tss ctx f tr Hf Hne). cbv zeta.
    rewrite choose_buf_size_conflict by done. eauto.
  - rewrite fill_hashs_missing by done. eauto.
Qed.

Lemma test_two_gcid E tss p tr :
  (∀ n, get_gcid_piece_size E n ≠ 0%N) →
  2 ≤ length (filter (λ ts, is_gcid ts) (TestSets.__tests_sets tss)) →
  (TestSets.test E tss p tr).2 ≠ Ok true.
Proof.
  intros HP Hg.
  assert (TestSets.__tests_sets tss ≠ []) as Hne.
  { intros Hnil. rewrite Hnil in Hg. simpl in Hg. lia. }
  rewrite test_unfold by done. rewrite IO_bind_eq. unfold lift at 1.
  destruct (TestSets.all_test _ _) as [[]|e]; cbn [negb]; try done.
  rewrite IO_bind_eq.
  destruct (fill_hashs_two_gcid E tss (TestContext_new p) tr HP Hg) as [e He].
  destruct (TestSets.__context_fill_hashs _ _ _ _) as [tr1 r]. simpl in He. by subst r.
Qed.

Lemma add_two_gcid E tss p tr :
  (∀ n, get_gcid_piece_size E n ≠ 0%N) →
  2 ≤ length (filter (λ ts, is_gcid ts) (TestSets.__tests_sets tss)) →
  (∃ e, (TestSets.add E tss p tr).2 = Raise e) ∧ (TestSets.add E tss p tr).1.1 = tss.
Proof.
  intros HP Hg. rewrite add_spec.
  destruct (TestSets.__tests_sets tss) as [|ts0 l] eqn:Hl; [simpl in Hg; lia|].
  destruct (fill_hashs_two_gcid E tss (TestContext_new p) tr HP) as [e He];
    [by rewrite Hl|].
  destruct (TestSets.__context_fill_hashs _ _ _ _) as [tr1 r]. simpl in He. subst r. eauto.
Qed.

(** X4. With two or more gcid sets active and a piece-size policy that
    never gives 0, [TestSets.test] returns true for no path, and
    [TestSets.add] raises on every path and leaves every set as it was. *)
Theorem two_gcid_sets_match_nothing E tss p tr :
  (∀ n, get_gcid_piece_size E n ≠ 0%N) →
  2 ≤ length (filter (λ ts, is_gcid ts) (TestSets.__tests_sets tss)) →
  (TestSets.test E tss p tr).2 ≠ Ok true
  ∧ (∃ e, (TestSets.add E tss p tr).2 = Raise e)
  ∧ (TestSets.add E tss p tr).1.1 = tss.
Proof.
  intros HP Hg. split; [by apply test_two_gcid|by apply add_two_gcid].
Qed.

Lemma two_gcid_sets_match_nothing_witness :
  (TestSets.test small_pieces (TestSets.new [gcids_a; gcids_b]) "/tmp/abc.txt" []).2
  ≠ Ok true
  ∧ (∃ e, (TestSets.add small_pieces (TestSets.new [gcids_a; gcids_b]) "/tmp/abc.txt" []).2
          = Raise e)
  ∧ (TestSets.add small_pieces (TestSets.new [gcids_a; gcids_b]) "/tmp/abc.txt" []).1.1
    = TestSets.new [gcids_a; gcids_b].
Proof.
  apply (two_gcid_sets_match_nothing small_pieces (TestSets.new [gcids_a; gcids_b])
           "/tmp/abc.txt" []).
  - intros n. discriminate.
  - vm_compute. lia.
Defined.

Lemma fill_hashs_cannot_open E tss ctx tr :
  ¬ can_open E (path ctx) →
  TestSets.__content_tests_sets tss ≠ [] →
  length (filter (λ ts, is_gcid ts) (TestSets.__tests_sets tss)) ≤ 1 →
  (TestSets.__context_fill_hashs E tss ctx tr).2 = Raise (OSError (path ctx)).
Proof.
  intros Hno Hne Hg. rewrite <- filter_is_gcid_content in Hg.
  destruct (fs E !! path ctx) as [f|] eqn:Hf.
  - rewrite (fill_hashs_found E tss ctx f tr Hf Hne). cbv zeta.
    destruct (choose_buf_size_no_conflict E (N.of_nat (length (f_data f))) _ Hg) as [B ->].
    destruct (f_readable f) eqn:Hr; [|done]. destruct Hno. by exists f.
  - by rewrite fill_hashs_missing.
Qed.

(** X5. On a path that is missing or cannot be opened, with a content set
    active and at most one gcid set: [TestSets.test] raises [OSError]
    whenever the name sets all accept the path (it does not return false),
    and [TestSets.add] raises [OSError] and leaves every set as it was. *)
Theorem unopenable_file_raises E tss p tr :
  ¬ can_open E p →
  TestSets.__content_tests_sets tss ≠ [] →
  length (filter (λ ts, is_gcid ts) (TestSets.__tests_sets tss)) ≤ 1 →
  (Forall (λ ts, TestSet.test ts (TestContext_new p) = Ok true)
          (TestSets.__metadata_tests_sets tss) →
   (TestSets.test E tss p tr).2 = Raise (OSError p))
  ∧ (TestSets.add E tss p tr).2 = Raise (OSError p)
  ∧ (TestSets.add E tss p tr).1.1 = tss.
Proof.
  intros Hno Hne Hg.
  assert (TestSets.__tests_sets tss ≠ []) as Hne'.
  { intros Hnil. apply Hne. unfold TestSets.__content_tests_sets. by rewrite Hnil. }
  pose proof (fill_hashs_cannot_open E tss (TestContext_new p) tr Hno Hne Hg) as Hfill.
  split; [|split].
  - intros Hm%all_test_true. rewrite test_unfold by done.
    rewrite IO_bind_eq. unfold lift at 1. rewrite Hm. cbn [negb]. rewrite IO_bind_eq.
    destruct (TestSets.__context_fill_hashs _ _ _ _) as [tr1 r]. simpl in Hfill. by subst r.
  - rewrite add_spec. destruct (TestSets.__tests_sets tss) as [|ts0 l]; [done|].
    destruct (TestSets.__context_fill_hashs _ _ _ _) as [tr1 r]. simpl in Hfill. by subst r.
  - rewrite add_spec. destruct (TestSets.__tests_sets tss) as [|ts0 l]; [done|].
    destruct (TestSets.__context_fill_hashs _ _ _ _) as [tr1 r]. simpl in Hfill. by subst r.
Qed.

Lemma unopenable_file_raises_witness :
  (Forall (λ ts, TestSet.test ts (TestContext_new "/tmp/locked.bin") = Ok true)
          (TestSets.__metadata_tests_sets (TestSets.new [names; sha1s])) →
   (TestSets.test small_pieces (TestSets.new [names; sha1s]) "/tmp/locked.bin" []).2
   = Raise (OSError "/tmp/locked.bin"))
  ∧ (TestSets.add small_pieces (TestSets.new [names; sha1s]) "/tmp/locked.bin" []).2
    = Raise (OSError "/tmp/locked.bin")
  ∧ (TestSets.add small_pieces (TestSets.new [names; sha1s]) "/tmp/locked.bin" []).1.1
    = TestSets.new [names; sha1s].
Proof.
  apply (unopenable_file_raises small_pieces (TestSets.new [names; sha1s])
           "/tmp/locked.bin" []).
  - intros (f & Hf & Hr). vm_compute in Hf. injection Hf as <-. discriminate.
  - discriminate.
  - vm_compute. lia.
Defined.

(** ** What one pass over a file gives *)

Lemma read_loop_bad_read fuel p fp n k0 k rest hs tr :
  f_bad_read fp = Some k → k0 ≤ k → k - k0 ≤ length (pieces n rest) →
  length rest < fuel →
  TestSets.read_loop fuel p fp n k0 rest hs tr
  = (tr ++ replicate (S (k - k0)) (Readinto p), Raise (OSError p)).
Proof.
  intros Hbad. revert k0 rest hs tr.
  induction fuel as [|fuel IH]; intros k0 rest hs tr Hk Hp Hlen; [lia|].
  cbn [TestSets.read_loop]. rewrite IO_bind_eq.
  unfold readinto at 1. rewrite IO_bind_eq. unfold syscall at 1. rewrite Hbad.
  destruct (decide (Some k = Some k0)) as [[= ->]|Hne].
  { by rewrite Nat.sub_diag. }
  assert (k0 < k) as Hlt by (assert (k ≠ k0) by congruence; lia).
  rewrite IO_ret_eq.
  destruct (take n rest) as [|b chunk] eqn:Htake.
  { rewrite (pieces_of_take_nil _ _ Htake) in Hp. simpl in Hp. lia. }
  assert (0 < n) by (destruct n; [done|lia]).
  assert (rest ≠ []) by (intros ->; by rewrite take_nil in Htake).
  rewrite (pieces_cons n rest) in Hp by done. simpl in Hp.
  rewrite IH; [| lia | lia |].
  - rewrite <- app_assoc. do 2 f_equal.
    replace (S (k - k0)) with (S (S (k - S k0))) by lia. done.
  - rewrite length_drop. destruct rest; simpl in *; [done|lia].
Qed.

(** X6. When the read number [k] (from 0) of a file fails,
    [__context_fill_hashs] raises [OSError] after one [getsize] for each
    gcid set, one [open] and [k + 1] calls of [readinto]; no digest is
    stored. *)
Theorem failed_read_raises E tss p f k B tr :
  fs E !! p = Some f → f_readable f = true → f_bad_read f = Some k →
  TestSets.__content_tests_sets tss ≠ [] →
  TestSets.choose_buf_size E
    (hint_of E (N.of_nat (length (f_data f))) <$> TestSets.__content_tests_sets tss) = Ok B →
  k ≤ length (pieces (N.to_nat B) (f_data f)) →
  TestSets.__context_fill_hashs E tss (TestContext_new p) tr
  = (tr ++ replicate (length (filter (λ ts, is_gcid ts) (TestSets.__tests_sets tss)))
             (Getsize p)
        ++ Open p :: replicate (S k) (Readinto p),
     Raise (OSError p)).
Proof.
  intros Hf Hr Hbad Hne HB Hk.
  rewrite (fill_hashs_found E tss (TestContext_new p) f tr Hf Hne). cbv zeta.
  rewrite HB, Hr, IO_bind_eq. cbn [path].
  rewrite (read_loop_bad_read _ _ _ _ 0 k) by (done || lia).
  rewrite Nat.sub_0_r, filter_is_gcid_content, <- !app_assoc. done.
Qed.

Lemma failed_read_raises_witness :
  TestSets.__context_fill_hashs flaky_pieces (TestSets.new [gcids])
    (TestContext_new "/tmp/flaky.bin") []
  = ([] ++ replicate (length (filter (λ ts, is_gcid ts)
                                (TestSets.__tests_sets (TestSets.new [gcids]))))
             (Getsize "/tmp/flaky.bin")
        ++ Open "/tmp/flaky.bin" :: replicate 2 (Readinto "/tmp/flaky.bin"),
     Raise (OSError "/tmp/flaky.bin")).
Proof.
  apply (failed_read_raises flaky_pieces (TestSets.new [gcids]) "/tmp/flaky.bin" flaky 1 4%N []).
  - vm_compute. reflexivity.
  - reflexivity.
  - reflexivity.
  - discriminate.
  - vm_compute. reflexivity.
  - vm_compute. lia.
Defined.

Lemma omap_truthy_hints_zero E size l :
  get_gcid_piece_size E size = 0%N → omap TestSets.truthy (hint_of E size <$> l) = [].
Proof.
  intros HP. induction l as [|ts l IH]; [done|].
  rewrite fmap_cons, omap_cons, IH. unfold hint_of. rewrite HP.
  by destruct (is_gcid ts).
Qed.

(** X7. When the policy gives piece size 0 for a file, the hint is dropped
    as an empty one: the file is read with [io.DEFAULT_BUFFER_SIZE], and
    the digests stored are those of the hashers fed with the chunks of
    that size. *)
Theorem zero_piece_size_uses_default E tss p f tr :
  fs E !! p = Some f → f_readable f = true → f_bad_read f = None →
  TestSets.__content_tests_sets tss ≠ [] →
  get_gcid_piece_size E (N.of_nat (length (f_data f))) = 0%N →
  let cts := TestSets.__content_tests_sets tss in
  let B := N.to_nat (DEFAULT_BUFFER_SIZE E) in
  TestSets.__context_fill_hashs E tss (TestContext_new p) tr
  = (tr ++ replicate (length (filter (λ ts, is_gcid ts) cts)) (Getsize p)
        ++ Open p :: replicate (S (length (pieces B (f_data f)))) (Readinto p),
     Ok (foldl TestSets.store_digest (TestContext_new p)
           (feed B (f_data f) <$> (initial_hasher <$> cts)))).
Proof.
  intros Hf Hr Hbad Hne HP cts B.
  rewrite (fill_hashs_readable E tss (TestContext_new p) f tr Hf Hr Hbad Hne). cbv zeta.
  rewrite choose_buf_size_spec, omap_truthy_hints_zero by done.
  by rewrite <- app_assoc.
Qed.

Lemma zero_piece_size_uses_default_witness :
  TestSets.__context_fill_hashs no_pieces (TestSets.new [gcids; sha1s])
    (TestContext_new "/tmp/abc.txt") []
  = ([] ++ replicate (length (filter (λ ts, is_gcid ts)
                                (TestSets.__content_tests_sets (TestSets.new [gcids; sha1s]))))
             (Getsize "/tmp/abc.txt")
        ++ Open "/tmp/abc.txt"
           :: replicate (S (length (pieces (N.to_nat (DEFAULT_BUFFER_SIZE no_pieces))
                                       (f_data hello))))
                (Readinto "/tmp/abc.txt"),
     Ok (foldl TestSets.store_digest (TestContext_new "/tmp/abc.txt")
           (feed (N.to_nat (DEFAULT_BUFFER_SIZE no_pieces)) (f_data hello)
              <$> (initial_hasher
                     <$> TestSets.__content_tests_sets (TestSets.new [gcids; sha1s]))))).
Proof.
  apply (zero_piece_size_uses_default no_pieces (TestSets.new [gcids; sha1s])
           "/tmp/abc.txt" hello []).
  - vm_compute. reflexivity.
  - reflexivity.
  - reflexivity.
  - discriminate.
  - reflexivity.
Defined.

Lemma foldl_store_digest_lookup_inv ctx hs k v :
  hashs (foldl TestSets.store_digest ctx hs) !! k = Some v →
  hashs ctx !! k = Some v
  ∨ ∃ h, h ∈ hs ∧ name h = k ∧ v = lower (hex (digest h)).
Proof.
  induction hs as [|h hs IH] using rev_ind; [by left|].
  rewrite foldl_snoc. cbn [TestSets.store_digest hashs].
  destruct (decide (name h = k)) as [Hk|Hk].
  - rewrite Hk, lookup_insert_eq. intros [= <-]. right. exists h.
    split; [|done]. apply elem_of_app. right. by apply list_elem_of_singleton.
  - rewrite lookup_insert_ne by done. intros [?|(h' & ? & ? & ?)]%IH; [by left|].
    right. exists h'. split; [|done]. apply elem_of_app. by left.
Qed.

(** X8. On a readable file, with at most one gcid set, all digests come
    from one pass: one [getsize] for each gcid set, then one [open], then
    the reads. The digests stored afterwards are among the plain SHA-1 of
    the content and its chunked digest, and the one of every active
    content set is there. *)
Theorem one_pass_all_digests E tss p f tr :
  fs E !! p = Some f → f_readable f = true → f_bad_read f = None →
  TestSets.__content_tests_sets tss ≠ [] →
  DEFAULT_BUFFER_SIZE E ≠ 0%N →
  get_gcid_piece_size E (N.of_nat (length (f_data f))) ≠ 0%N →
  length (filter (λ ts, is_gcid ts) (TestSets.__tests_sets tss)) ≤ 1 →
  ∃ ctx' reads,
    TestSets.__context_fill_hashs E tss (TestContext_new p) tr
    = (tr ++ replicate (length (filter (λ ts, is_gcid ts) (TestSets.__tests_sets tss)))
               (Getsize p)
          ++ Open p :: replicate reads (Readinto p),
       Ok ctx')
    ∧ hashs ctx' ⊆ spec_digests E (f_data f)
    ∧ ∀ ts, ts ∈ TestSets.__content_tests_sets tss →
            hashs ctx' !! name (initial_hasher ts)
            = spec_digests E (f_data f) !! name (initial_hasher ts).
Proof.
  intros Hf Hr Hbad Hne HD HP Hg.
  pose proof (fill_hashs_readable E tss (TestContext_new p) f tr Hf Hr Hbad Hne) as Hfill.
  cbv zeta in Hfill. rewrite <- filter_is_gcid_content in Hg.
  rewrite (choose_buf_size_at_most_one E _ _ HP Hg) in Hfill. cbn [path] in Hfill.
  set (B := if decide _ then _ else _) in *.
  assert (0 < N.to_nat B) as HB by (subst B; case_decide; lia).
  assert (Hkey : ∀ ts, ts ∈ TestSets.__content_tests_sets tss →
            hex (digest (feed (N.to_nat B) (f_data f) (initial_hasher ts)))
            = hex (if is_gcid ts
                   then gcid_of_pieces
                          (pieces (N.to_nat (get_gcid_piece_size E
                                     (N.of_nat (length (f_data f))))) (f_data f))
                   else sha1 (f_data f))).
  { intros ts Hts. rewrite digest_feed_initial by done.
    destruct (is_gcid ts) eqn:Hgc; [|done].
    subst B. rewrite decide_False; [done|]. intros Hfl.
    assert (ts ∈ filter (λ ts, is_gcid ts) (TestSets.__content_tests_sets tss)) as Hin
      by (apply list_elem_of_filter; by rewrite Hgc).
    rewrite Hfl in Hin. by apply elem_of_nil in Hin. }
  eexists _, _. split; [|split].
  - rewrite Hfill, filter_is_gcid_content, <- app_assoc. reflexivity.
  - apply map_subseteq_spec. intros k v Hkv.
    apply foldl_store_digest_lookup_inv in Hkv as [Hkv|(h & Hh & <- & ->)]; [done|].
    apply list_elem_of_fmap in Hh as (h0 & -> & (ts & -> & Hts)%list_elem_of_fmap).
    unfold feed at 1. rewrite name_foldl_update, lower_hex, spec_digests_lookup.
    f_equal. symmetry. by apply Hkey.
  - intros ts Hts. rewrite (fed_hashers_lookup _ _ _ _ ts Hts), spec_digests_lookup.
    f_equal. by apply Hkey.
Qed.

Lemma one_pass_all_digests_witness :
  ∃ ctx' reads,
    TestSets.__context_fill_hashs small_pieces (TestSets.new [names; gcids; sha1s])
      (TestContext_new "/tmp/abc.txt") []
    = ([] ++ replicate (length (filter (λ ts, is_gcid ts)
                                  (TestSets.__tests_sets (TestSets.new [names; gcids; sha1s]))))
               (Getsize "/tmp/abc.txt")
          ++ Open "/tmp/abc.txt" :: replicate reads (Readinto "/tmp/abc.txt"),
       Ok ctx')
    ∧ hashs ctx' ⊆ spec_digests small_pieces (f_data hello)
    ∧ ∀ ts, ts ∈ TestSets.__content_tests_sets (TestSets.new [names; gcids; sha1s]) →
            hashs ctx' !! name (initial_hasher ts)
            = spec_digests small_pieces (f_data hello) !! name (initial_hasher ts).
Proof.
  apply (one_pass_all_digests small_pieces (TestSets.new [names; gcids; sha1s])
           "/tmp/abc.txt" hello []).
  - vm_compute. reflexivity.
  - reflexivity.
  - reflexivity.
  - discriminate.
  - discriminate.
  - discriminate.
  - vm_compute. lia.
Defined.

(** ** Base names and seed lines *)








Lemma rstrip_idemp s : rstrip (rstrip s) = rstrip s.
Proof.
  induction s as [|c s IH]; [done|]. cbn [rstrip].
  destruct (rstrip s) as [|c' r] eqn:Hr.
  - destruct (isspace c) eqn:Hc; [done|]. cbn [rstrip]. by rewrite Hc.
  - cbn [rstrip]. cbn [rstrip] in IH. by rewrite IH.
Qed.

Lemma lstrip_nonspace c s : isspace c = false → lstrip (String c s) = String c s.
Proof. intros Hc. simpl. by rewrite Hc. Qed.

Lemma rstrip_cons_nonspace c s :
  isspace c = false → ∃ r, rstrip (String c s) = String c r.
Proof.
  intros Hc. cbn [rstrip]. destruct (rstrip s); [rewrite Hc|]; eauto.
Qed.

Lemma lstrip_head s :
  lstrip s = EmptyString ∨ ∃ c s', lstrip s = String c s' ∧ isspace c = false.
Proof.
  induction s as [|c s IH]; [by left|]. simpl.
  destruct (isspace c) eqn:Hc; [done|]. right. eauto.
Qed.

Lemma strip_idemp s : strip (strip s) = strip s.
Proof.
  unfold strip. destruct (lstrip_head s) as [->|(c & s' & -> & Hc)]; [done|].
  destruct (rstrip_cons_nonspace c s' Hc) as [r Hr].
  rewrite Hr, (lstrip_nonspace c r Hc), <- Hr. apply rstrip_idemp.
Qed.





Lemma seed_form_dataset c lines v :
  v ∈ TestSet._parpare_set c lines → strip v ≠ EmptyString ∧ seed_form c v = v.
Proof.
  intros (line & _ & Hne & ->)%elem_of_parpare_set. unfold seed_form.
  destruct (decide (c = NameTestSet)).
  - by rewrite strip_idemp.
  - rewrite <- (lower_strip (strip line)), strip_idemp, lower_idemp.
    split; [|done]. by rewrite lower_empty.
Qed.

Lemma foldl_after_add_fields c nm lines ctxs :
  let ts := foldl TestSet.after_add (TestSet.new c nm lines) ctxs in
  TestSet.cls ts = c ∧ TestSet._dataset ts = TestSet._parpare_set c lines.
Proof.
  induction ctxs as [|ctx ctxs IH] using rev_ind; [done|].
  cbv zeta in *. rewrite foldl_snoc, after_add_cls, after_add_dataset. done.
Qed.

Lemma elem_of_all_rows ts v :
  v ∈ TestSet.all_rows ts ↔ v ∈ TestSet._dataset ts ∨ v ∈ TestSet._adding_rows ts.
Proof.
  unfold TestSet.all_rows. by rewrite sorted_elem_of, elem_of_elements, elem_of_union.
Qed.

(** ** Lines of a text *)

Lemma lines_from_translate b s :
  lines_from false (translate_newlines b s) = lines_from b s.
Proof.
  revert b. induction s as [|c s IH]; intros b; [done|].
  cbn [translate_newlines lines_from].
  destruct (b && Ascii.eqb c LF) eqn:Hskip; [apply IH|].
  destruct (Ascii.eqb c CR) eqn:Hcr.
  - apply Ascii.eqb_eq in Hcr as ->. cbn. by rewrite IH.
  - cbn [lines_from andb]. rewrite Hcr, IH. done.
Qed.

Lemma splitlines_translate s : splitlines (translate_newlines false s) = splitlines s.
Proof. apply lines_from_translate. Qed.

Lemma plain_cons c v : plain (String c v) ↔ is_linebreak c = false ∧ plain v.
Proof.
  unfold plain. cbn [String.list_ascii_of_string]. split.
  - intros H. split; [apply H; left|]. intros c' Hc'. apply H. by right.
  - intros [Hc Hv] c' [->|Hc']%elem_of_cons; [done|by apply Hv].
Qed.

Lemma plain_nil : plain EmptyString.
Proof. intros c Hc. by apply elem_of_nil in Hc. Qed.

Lemma lines_from_plain_newline v s :
  plain v → lines_from false (v +:+ String LF s) = v :: lines_from false s.
Proof.
  induction v as [|c v IH]; intros Hv; [done|].
  apply plain_cons in Hv as [Hc Hv]. cbn [String.append lines_from andb].
  change (String c v +:+ String LF s) with (String c (v +:+ String LF s)).
  cbn [lines_from andb]. by rewrite Hc, IH.
Qed.

Lemma lines_from_plain v :
  plain v → v ≠ EmptyString → lines_from false v = [v].
Proof.
  induction v as [|c v IH]; intros Hv Hne; [done|].
  apply plain_cons in Hv as [Hc Hv]. cbn [lines_from andb]. rewrite Hc.
  destruct v as [|c' v']; [done|]. by rewrite IH.
Qed.

Lemma splitlines_single v :
  splitlines v = [v] ↔ plain v ∧ v ≠ EmptyString.
Proof.
  split; [|intros [? ?]; by apply lines_from_plain].
  unfold splitlines. induction v as [|c v IH]; [done|].
  cbn [lines_from andb]. destruct (is_linebreak c) eqn:Hc; [done|].
  destruct (lines_from false v) as [|l ls] eqn:Hv.
  - intros [= <-]. split; [|done]. apply plain_cons. split; [done|apply plain_nil].
  - intros [= -> ->]. split; [|done]. apply plain_cons. split; [done|]. by apply IH.
Qed.


Lemma str_join_cons sep x y l :
  str_join sep (x :: y :: l) = x +:+ sep +:+ str_join sep (y :: l).
Proof. done. Qed.


Lemma splitlines_join rows :
  Forall (λ v, splitlines v = [v]) rows →
  splitlines (str_join (String LF EmptyString) rows) = rows.
Proof.
  unfold splitlines. induction 1 as [|x rows [Hx Hne]%splitlines_single Hall IH]; [done|].
  destruct rows as [|y rows].
  - cbn [str_join]. by apply lines_from_plain.
  - rewrite str_join_cons. change (String LF EmptyString +:+ ?s) with (String LF s).
    rewrite lines_from_plain_newline by done. by rewrite IH.
Qed.

(** ** Rows written and read back *)

Lemma reload_lines ts :
  Forall (λ r, splitlines r = [r]) (TestSet.all_rows ts) →
  reload ts = TestSet.new (TestSet.cls ts) (TestSet.name ts) (TestSet.all_rows ts).
Proof.
  intros Hall. unfold reload, rows_text. by rewrite splitlines_translate, splitlines_join.
Qed.

(** X10. When every row of a set is one line, the set a later run builds
    from the text written for it accepts exactly the rows accepted before
    and the observed rows, each stripped (and lower-cased, for every class
    but [NameTestSet]); an observed row that strips to nothing is lost. *)
Theorem reload_keeps_accepted c nm lines ctxs v :
  Forall (λ r, splitlines r = [r])
    (TestSet.all_rows (foldl TestSet.after_add (TestSet.new c nm lines) ctxs)) →
  v ∈ TestSet._dataset (reload (foldl TestSet.after_add (TestSet.new c nm lines) ctxs)) ↔
  v ∈ TestSet._dataset (foldl TestSet.after_add (TestSet.new c nm lines) ctxs)
  ∨ ∃ w, w ∈ TestSet._adding_rows (foldl TestSet.after_add (TestSet.new c nm lines) ctxs)
         ∧ strip w ≠ EmptyString ∧ v = seed_form c w.
Proof.
  intros Hall. rewrite (reload_lines _ Hall).
  destruct (foldl_after_add_fields c nm lines ctxs) as [Hc Hd]. cbv zeta in Hc, Hd.
  set (ts := foldl TestSet.after_add (TestSet.new c nm lines) ctxs) in *.
  rewrite Hc. cbn [TestSet.new TestSet._dataset]. rewrite elem_of_parpare_set. split.
  - intros (line & [Hl|Hl]%elem_of_all_rows & Hne & ->).
    + left. rewrite Hd in Hl |- *.
      destruct (seed_form_dataset _ _ _ Hl) as [_ Hs]. unfold seed_form in Hs.
      by rewrite Hs.
    + right. exists line. done.
  - intros [Hv|(w & Hw & Hne & ->)].
    + exists v. rewrite Hd in Hv. destruct (seed_form_dataset _ _ _ Hv) as [Hne Hs].
      split; [apply elem_of_all_rows; left; by rewrite Hd|]. split; [done|].
      unfold seed_form in Hs. done.
    + exists w. split; [apply elem_of_all_rows; by right|]. done.
Qed.

Lemma reload_keeps_accepted_witness :
  "b.txt" ∈ TestSet._dataset
              (reload (foldl TestSet.after_add (TestSet.new NameTestSet "name.txt" ["abc.txt"])
                         [TestContext_new "/tmp/ b.txt"])) ↔
  "b.txt" ∈ TestSet._dataset
              (foldl TestSet.after_add (TestSet.new NameTestSet "name.txt" ["abc.txt"])
                 [TestContext_new "/tmp/ b.txt"])
  ∨ ∃ w, w ∈ TestSet._adding_rows
               (foldl TestSet.after_add (TestSet.new NameTestSet "name.txt" ["abc.txt"])
                  [TestContext_new "/tmp/ b.txt"])
         ∧ strip w ≠ EmptyString ∧ "b.txt" = seed_form NameTestSet w.
Proof.
  apply (reload_keeps_accepted NameTestSet "name.txt" ["abc.txt"]
           [TestContext_new "/tmp/ b.txt"] "b.txt").
  vm_compute. repeat constructor.
Defined.




Lemma is_linebreak_isspace c : is_linebreak c = true → isspace c = true.
Proof.
  destruct c as [[] [] [] [] [] [] [] []]; vm_compute; congruence.
Qed.






















(** ** The loop of [main] and the persistence step *)

Lemma trash_calls_app o1 o2 :
  Main.trash_calls (o1 ++ o2) = Main.trash_calls o1 ++ Main.trash_calls o2.
Proof. apply omap_app. Qed.

Lemma writes_app o1 o2 : Main.writes (o1 ++ o2) = Main.writes o1 ++ Main.writes o2.
Proof. apply omap_app. Qed.

Lemma trash_calls_echo_rows (rows : list string) :
  Main.trash_calls ((λ row, Main.Echo ("  " +:+ row)) <$> rows) = [].
Proof. induction rows as [|r rows IH]; [done|]. by rewrite fmap_cons. Qed.

Lemma writes_echo_rows (rows : list string) :
  Main.writes ((λ row, Main.Echo ("  " +:+ row)) <$> rows) = [].
Proof. induction rows as [|r rows IH]; [done|]. by rewrite fmap_cons. Qed.

Lemma writes_shown out m (rows : list string) :
  Main.writes (out ++ Main.RichPrint m :: ((λ row, Main.Echo ("  " +:+ row)) <$> rows))
  = Main.writes out.
Proof.
  rewrite writes_app. change (Main.RichPrint m :: ?l) with ([Main.RichPrint m] ++ l).
  rewrite writes_app, writes_echo_rows. apply app_nil_r.
Qed.

Lemma trash_calls_shown out m (rows : list string) :
  Main.trash_calls (out ++ Main.RichPrint m :: ((λ row, Main.Echo ("  " +:+ row)) <$> rows))
  = Main.trash_calls out.
Proof.
  rewrite trash_calls_app. change (Main.RichPrint m :: ?l) with ([Main.RichPrint m] ++ l).
  rewrite trash_calls_app, trash_calls_echo_rows. apply app_nil_r.
Qed.


Lemma trash_calls_snoc_write out f t :
  Main.trash_calls (out ++ [Main.AtomicWrite f t]) = Main.trash_calls out.
Proof. rewrite trash_calls_app. apply app_nil_r. Qed.


(** One file of the loop. *)
Lemma visit_spec H E o st p :
  let st' := Main.visit H E o st p in
  ∃ added,
    Main.to_remove st' = Main.to_remove st ++ added
    ∧ Main.trash_calls (Main.out st')
      = Main.trash_calls (Main.out st) ++ ((λ q, [q]) <$> added)
    ∧ Main.writes (Main.out st') = Main.writes (Main.out st)
    ∧ (added = []
       ∨ added = [p] ∧ Main.add o = false ∧ Main.dry_run o = false
         ∧ (TestSets.test (with_fs E (Main.files st)) (Main.sets st) p (Main.sys st)).2
           = Ok true)
    ∧ (added = [] → Main.files st' = Main.files st)
    ∧ (Main.add o = false → Main.sets st' = Main.sets st)
    ∧ (Main.add o = true →
       Main.sets st'
       = (TestSets.add (with_fs E (Main.files st)) (Main.sets st) p (Main.sys st)).1.1).
Proof.
  cbv zeta. unfold Main.visit. destruct (Main.add o) eqn:Hadd.
  - destruct (TestSets.add _ _ _ _) as [[tss' tr'] r]. exists []. cbn.
    rewrite app_nil_r, trash_calls_app, writes_app.
    destruct r; cbn; rewrite !app_nil_r; repeat split; auto; done.
  - destruct (TestSets.test _ _ _ _) as [tr' [[]|e]] eqn:Ht.
    + destruct (Main.dry_run o) eqn:Hdry.
      * exists []. cbn. rewrite app_nil_r, trash_calls_app, writes_app. cbn.
        rewrite !app_nil_r. repeat split; auto; done.
      * destruct (Main.send2trash H _ _) as [files' r]. exists [p]. cbn.
        rewrite !trash_calls_app, !writes_app.
        destruct r; cbn; rewrite ?app_nil_r; repeat split; auto; try done.
        all: right; repeat split; auto.
    + exists []. cbn. rewrite !app_nil_r. repeat split; auto; done.
    + exists []. cbn. rewrite app_nil_r, trash_calls_app, writes_app. cbn.
      rewrite !app_nil_r. repeat split; auto; done.
Qed.

(** The whole loop. *)
Lemma loop_spec H E o ps st :
  let st' := foldl (Main.visit H E o) st ps in
  ∃ added,
    Main.to_remove st' = Main.to_remove st ++ added
    ∧ Main.trash_calls (Main.out st')
      = Main.trash_calls (Main.out st) ++ ((λ q, [q]) <$> added)
    ∧ Main.writes (Main.out st') = Main.writes (Main.out st)
    ∧ (∀ p, p ∈ added →
            p ∈ ps ∧ Main.add o = false ∧ Main.dry_run o = false
            ∧ ∃ m tr, (TestSets.test (with_fs E m) (Main.sets st) p tr).2 = Ok true)
    ∧ (added = [] → Main.files st' = Main.files st)
    ∧ (Main.add o = false → Main.sets st' = Main.sets st).
Proof.
  cbv zeta. revert st. induction ps as [|p ps IH]; intros st.
  { exists []. cbn [foldl fmap list_fmap]. rewrite !app_nil_r. split_and!; try done.
    by intros q ?%elem_of_nil. }
  cbn [foldl].
  destruct (visit_spec H E o st p) as (a1 & Hr1 & Ht1 & Hw1 & Hc1 & Hf1 & Hs1 & _).
  destruct (IH (Main.visit H E o st p)) as (a2 & Hr2 & Ht2 & Hw2 & Hc2 & Hf2 & Hs2).
  exists (a1 ++ a2). split; [|split; [|split; [|split; [|split]]]].
  - by rewrite Hr2, Hr1, app_assoc.
  - by rewrite Ht2, Ht1, fmap_app, app_assoc.
  - by rewrite Hw2, Hw1.
  - intros q [Hq|Hq]%elem_of_app.
    + destruct Hc1 as [->|(-> & Ha & Hd & Htest)]; [by apply elem_of_nil in Hq|].
      apply list_elem_of_singleton in Hq as ->. split; [left|]. eauto.
    + destruct (Hc2 q Hq) as (? & Ha & ? & m & tr & Htest).
      split; [by right|]. rewrite (Hs1 Ha) in Htest. eauto.
  - intros [-> ->]%app_eq_nil. rewrite Hf2, Hf1; done.
  - intros Ha. by rewrite Hs2, Hs1.
Qed.



(** The persistence step. *)
Lemma persist_trash_calls H o l out :
  Main.trash_calls (Main.persist H o l out).1 = Main.trash_calls out.
Proof.
  revert out. induction l as [|ts l IH]; intros out; [done|]. cbn [Main.persist].
  destruct (TestSet.adding_rows ts) as [|r rows] eqn:Hrows; [apply IH|].
  destruct (Main.dry_run o).
  - by rewrite IH, trash_calls_shown.
  - destruct (Main.atomic_write H _ _); cbn [fst]; [|rewrite IH];
      by rewrite trash_calls_snoc_write, trash_calls_shown.
Qed.

Lemma persist_nothing_added H o l out :
  Forall (λ ts, TestSet.adding_rows ts = []) l → Main.persist H o l out = (out, None).
Proof.
  induction 1 as [|ts l Hts _ IH]; [done|]. cbn [Main.persist]. by rewrite Hts.
Qed.

Lemma persist_dry_run H o l out :
  Main.dry_run o = true → Main.persist H o l out = ((Main.persist H o l out).1, None)
  ∧ Main.writes (Main.persist H o l out).1 = Main.writes out.
Proof.
  intros Hd. revert out. induction l as [|ts l IH]; intros out; [done|].
  cbn [Main.persist]. destruct (TestSet.adding_rows ts) as [|r rows]; [apply IH|].
  rewrite Hd. destruct (IH (out ++ Main.RichPrint ("--- Rows added to [green] "
                                +:+ TestSet.name ts +:+ " [/green] ---")
                   :: ((λ row, Main.Echo ("  " +:+ row)) <$> r :: rows))) as [H1 H2].
  split; [done|]. by rewrite H2, writes_shown.
Qed.


Lemma adding_rows_new c nm lines : TestSet.adding_rows (TestSet.new c nm lines) = [].
Proof. unfold TestSet.adding_rows. cbn. apply elements_empty. Qed.

(** ** The sets [main] builds *)

Lemma load_from_app H value c by_file s :
  Main.load_from H value c by_file s
  = (p ← Main.load_from H value c by_file []; Ok (s ++ p)).
Proof.
  unfold Main.load_from. destruct value as [[|a v]|]; cbn; rewrite ?app_nil_r; try done.
  destruct (Main.isfile H _).
  - by destruct (Main.read_text H _).
  - destruct by_file; cbn; by rewrite ?app_nil_r.
Qed.

Lemma load_from_not_given H value c by_file :
  given value = false → Main.load_from H value c by_file [] = Ok [].
Proof. by destruct value as [[|a v]|]. Qed.

Lemma load_from_piece H value c by_file p :
  Main.load_from H value c by_file [] = Ok p →
  p = [] ∨ ∃ v lines, value = Some v ∧ p = [TestSet.new c v lines].
Proof.
  unfold Main.load_from. destruct value as [[|a v]|]; try (intros [= <-]; by left).
  destruct (Main.isfile H _).
  - destruct (Main.read_text H _) as [text|e]; [|done]. cbn. intros [= <-]. right. eauto.
  - destruct by_file; intros [= <-]; [right; eauto|by left].
Qed.

Lemma load_from_by_file H value c p :
  given value = true → Main.load_from H value c true [] = Ok p → p ≠ [].
Proof.
  unfold Main.load_from. destruct value as [[|a v]|]; try done. intros _.
  destruct (Main.isfile H _).
  - destruct (Main.read_text H _) as [text|e]; [|done]. by intros [= <-].
  - by intros [= <-].
Qed.

Lemma load_from_missing H v c :
  v ≠ EmptyString → Main.isfile H v = false →
  Main.load_from H (Some v) c true [] = Ok [TestSet.new c v []].
Proof. intros Hv Hf. unfold Main.load_from. destruct v; [done|]. by rewrite Hf. Qed.

Lemma load_from_dir H v c p :
  Main.load_from H (Some v) c false [] = Ok p →
  (Main.isfile H v = false → p = []) ∧ (v ≠ EmptyString → Main.isfile H v = true → p ≠ []).
Proof.
  unfold Main.load_from. destruct v as [|a v]; [by intros [= <-]|].
  destruct (Main.isfile H _).
  - destruct (Main.read_text H _) as [text|e]; [|done]. by intros [= <-].
  - by intros [= <-].
Qed.

(** The sets [main] builds: one piece for each option, in the order of the source. *)
Lemma load_sets_Ok_inv H o l :
  Main.load_sets H o = Ok l →
  ∃ p1 p2 p3 p4 p5,
    l = p1 ++ p2 ++ p3 ++ p4 ++ p5
    ∧ Main.load_from H (Main.name o) NameTestSet true [] = Ok p1
    ∧ Main.load_from H (Main.iname o) INameTestSet true [] = Ok p2
    ∧ Main.load_from H (Main.sha1 o) Sha1TestSet true [] = Ok p3
    ∧ Main.load_from H (Main.gcid o) GcidTestSet true [] = Ok p4
    ∧ if given (Main.from_dir o) then
        ∃ d q1 q2 q3 q4,
          Main.from_dir o = Some d
          ∧ p5 = q1 ++ q2 ++ q3 ++ q4
          ∧ Main.load_from H (Some (path_join d "name.txt")) NameTestSet false [] = Ok q1
          ∧ Main.load_from H (Some (path_join d "iname.txt")) INameTestSet false [] = Ok q2
          ∧ Main.load_from H (Some (path_join d "sha1.txt")) Sha1TestSet false [] = Ok q3
          ∧ Main.load_from H (Some (path_join d "gcid.txt")) GcidTestSet false [] = Ok q4
      else p5 = [].
Proof.
  unfold Main.load_sets.
  destruct (Main.load_from H (Main.name o) _ _ []) as [p1|e] eqn:H1; [|done].
  cbn [mbind result_bind].
  rewrite (load_from_app H (Main.iname o)).
  destruct (Main.load_from H (Main.iname o) _ _ []) as [p2|e] eqn:H2; [|done].
  cbn [mbind result_bind].
  rewrite (load_from_app H (Main.sha1 o)).
  destruct (Main.load_from H (Main.sha1 o) _ _ []) as [p3|e] eqn:H3; [|done].
  cbn [mbind result_bind].
  rewrite (load_from_app H (Main.gcid o)).
  destruct (Main.load_from H (Main.gcid o) _ _ []) as [p4|e] eqn:H4; [|done].
  cbn [mbind result_bind].
  destruct (Main.from_dir o) as [[|a d]|] eqn:Hd; cbn [given].
  1, 3: intros [= <-]; exists p1, p2, p3, p4, []; by rewrite !app_nil_r, <- !app_assoc.
  rewrite (load_from_app H (Some (path_join _ "name.txt"))).
  destruct (Main.load_from H (Some (path_join _ "name.txt")) _ _ []) as [q1|e] eqn:G1; [|done].
  cbn [mbind result_bind].
  rewrite (load_from_app H (Some (path_join _ "iname.txt"))).
  destruct (Main.load_from H (Some (path_join _ "iname.txt")) _ _ []) as [q2|e] eqn:G2; [|done].
  cbn [mbind result_bind].
  rewrite (load_from_app H (Some (path_join _ "sha1.txt"))).
  destruct (Main.load_from H (Some (path_join _ "sha1.txt")) _ _ []) as [q3|e] eqn:G3; [|done].
  cbn [mbind result_bind].
  rewrite (load_from_app H (Some (path_join _ "gcid.txt"))).
  destruct (Main.load_from H (Some (path_join _ "gcid.txt")) _ _ []) as [q4|e] eqn:G4; [|done].
  cbn [mbind result_bind]. intros [= <-].
  exists p1, p2, p3, p4, (q1 ++ q2 ++ q3 ++ q4). split; [by rewrite <- !app_assoc|].
  repeat split; try done. exists (String a d), q1, q2, q3, q4. done.
Qed.

Lemma load_from_dir_missing H v c s :
  Main.isfile H v = false → Main.load_from H (Some v) c false s = Ok s.
Proof. intros Hf. unfold Main.load_from. destruct v; [done|]. by rewrite Hf. Qed.

Lemma load_from_not_given_any H value c by_file s :
  given value = false → Main.load_from H value c by_file s = Ok s.
Proof. by destruct value as [[|a v]|]. Qed.

Lemma load_sets_adding_rows H o l :
  Main.load_sets H o = Ok l → Forall (λ ts, TestSet.adding_rows ts = []) l.
Proof.
  intros (p1 & p2 & p3 & p4 & p5 & -> & H1 & H2 & H3 & H4 & H5)%load_sets_Ok_inv.
  assert (Hpiece : ∀ value c b p, Main.load_from H value c b [] = Ok p →
                     Forall (λ ts, TestSet.adding_rows ts = []) p).
  { intros value c b p [->|(v & lines & _ & ->)]%load_from_piece; [done|].
    constructor; [apply adding_rows_new|done]. }
  rewrite !Forall_app. repeat split; try (by eapply Hpiece).
  destruct (given (Main.from_dir o)); [|by subst p5].
  destruct H5 as (d & q1 & q2 & q3 & q4 & _ & -> & G1 & G2 & G3 & G4).
  rewrite !Forall_app. repeat split; by eapply Hpiece.
Qed.

(** What a run does once its sets are loaded. *)
Lemma main_spec H E o l :
  Main.load_sets H o = Ok l → l ≠ [] →
  let st' := foldl (Main.visit H E o)
               {| Main.sets := TestSets.new l; Main.to_remove := []; Main.files := fs E;
                  Main.sys := []; Main.out := [] |} (Main.walked H o) in
  ∃ added out0,
    (∀ p, p ∈ added →
          p ∈ Main.walked H o ∧ Main.add o = false ∧ Main.dry_run o = false
          ∧ ∃ m tr, (TestSets.test (with_fs E m) (TestSets.new l) p tr).2 = Ok true)
    ∧ (Main.add o = false → Main.sets st' = TestSets.new l)
    ∧ Main.final_sets (Main.main H E o) = TestSets.__tests_sets (Main.sets st')
    ∧ Main.trash_calls (Main.final_out (Main.main H E o))
      = ((λ q, [q]) <$> added) ++ (if decide (added = []) then [] else [added])
    ∧ (added = [] → Main.final_files (Main.main H E o) = fs E)
    ∧ Main.writes out0 = []
    ∧ (Main.final_out (Main.main H E o) = out0
       ∨ Main.final_out (Main.main H E o)
         = (Main.persist H o (TestSets.__tests_sets (Main.sets st')) out0).1)
    ∧ (added = [] →
       Main.final_out (Main.main H E o)
       = (Main.persist H o (TestSets.__tests_sets (Main.sets st')) out0).1
       ∧ Main.raised (Main.main H E o)
         = (Main.persist H o (TestSets.__tests_sets (Main.sets st')) out0).2).
Proof.
  intros Hload Hne. cbv zeta. unfold Main.main. rewrite Hload.
  destruct l as [|ts0 l0]; [done|]. set (l := ts0 :: l0) in *.
  destruct (loop_spec H E o (Main.walked H o)
              {| Main.sets := TestSets.new l; Main.to_remove := []; Main.files := fs E;
                 Main.sys := []; Main.out := [] |})
    as (added & Hr & Ht & Hw & Hc & Hf & Hs).
  cbv zeta in *.
  set (st' := foldl (Main.visit H E o) _ (Main.walked H o)) in *.
  cbn [Main.sets Main.to_remove Main.files Main.out app] in Hr, Ht, Hw, Hc, Hf, Hs.
  change (Main.trash_calls []) with (@nil (list string)) in Ht.
  change (Main.writes []) with (@nil (string * string)) in Hw.
  cbn [app] in Ht.
  unfold Main.trash_batch. rewrite Hr.
  destruct added as [|a added'].
  { exists [], (Main.out st').
    destruct (Main.persist H o _ (Main.out st')) as [out' r'] eqn:Hp.
    pose proof (persist_trash_calls H o (TestSets.__tests_sets (Main.sets st')) (Main.out st')) as Hpt.
    rewrite Hp in Hpt. cbn [fst] in Hpt.
    cbn [Main.final_sets Main.final_out Main.final_files Main.raised fst snd].
    split_and!; try done.
    - by rewrite Hpt, Ht.
    - by right. }
  destruct (Hc a) as (_ & Ha & Hd & _); [left|]. rewrite Hd.
  destruct (Main.send2trash H (Main.files st') (a :: added')) as [files' r].
  set (out0 := Main.out st' ++ [Main.Send2trash (a :: added')]).
  assert (Hw0 : Main.writes out0 = []) by (subst out0; by rewrite writes_app, Hw).
  assert (Ht0 : Main.trash_calls out0 = ((λ q, [q]) <$> a :: added') ++ [a :: added'])
    by (subst out0; by rewrite trash_calls_app, Ht).
  exists (a :: added'), out0. rewrite decide_False by done.
  assert (Hcases :
    (match r with
     | None | Some (OSError _) => None
     | Some e => Some e
     end = None) ∨ ∃ e, (match r with
     | None | Some (OSError _) => None
     | Some e => Some e
     end = Some e)).
  { destruct r as [[]|]; eauto. }
  destruct Hcases as [->|[e ->]].
  - cbn [Main.sets Main.to_remove Main.files Main.out Main.sys]. fold out0.
    destruct (Main.persist H o _ out0) as [out' r'] eqn:Hp.
    pose proof (persist_trash_calls H o (TestSets.__tests_sets (Main.sets st')) out0) as Hpt.
    rewrite Hp in Hpt. cbn [fst] in Hpt.
    cbn [Main.final_sets Main.final_out Main.final_files Main.raised fst snd].
    split_and!; try done.
    + intros q Hq. by destruct (Hc q Hq) as (? & ? & ? & ?).
    + by rewrite Hpt, Ht0.
    + by right.
  - cbn [Main.sets Main.to_remove Main.files Main.out Main.sys
         Main.final_sets Main.final_out Main.final_files Main.raised fst snd].
    fold out0. split_and!; try done.
    + intros q Hq. by destruct (Hc q Hq) as (? & ? & ? & ?).
    + by left.
Qed.

(** ** What a run of [main] does *)

Lemma main_no_sets H E o :
  (∀ l, Main.load_sets H o = Ok l → l = []) →
  Main.trash_calls (Main.final_out (Main.main H E o)) = []
  ∧ Main.writes (Main.final_out (Main.main H E o)) = []
  ∧ Main.final_files (Main.main H E o) = fs E
  ∧ Main.final_sets (Main.main H E o) = [].
Proof.
  intros Hl. unfold Main.main. destruct (Main.load_sets H o) as [l|e]; [|done].
  by rewrite (Hl l eq_refl).
Qed.

Lemma load_sets_cases H o :
  (∀ l, Main.load_sets H o = Ok l → l = [])
  ∨ ∃ l, Main.load_sets H o = Ok l ∧ l ≠ [].
Proof.
  destruct (Main.load_sets H o) as [[|ts l]|e].
  - left. by intros l [= <-].
  - right. by exists (ts :: l).
  - left. by intros l ?.
Qed.

Lemma dataset_new_nil c v : TestSet._dataset (TestSet.new c v []) = ∅.
Proof.
  apply elem_of_equiv_empty_L. intros x (line & Hin & _)%elem_of_parpare_set.
  by apply elem_of_nil in Hin.
Qed.

(** Writing happens with [--add] and without [--dry-run] only. *)
Lemma main_writes_inv H E o :
  Main.writes (Main.final_out (Main.main H E o)) ≠ [] →
  Main.add o = true ∧ Main.dry_run o = false.
Proof.
  intros Hw. destruct (load_sets_cases H o) as [Hnil|(l & Hload & Hne)].
  { by destruct (main_no_sets H E o Hnil) as (_ & ? & _). }
  destruct (main_spec H E o l Hload Hne) as (added & out0 & _ & Hs & _ & _ & _ & Hw0 & Hout & _).
  cbv zeta in *. destruct Hout as [Hout|Hout]; rewrite Hout in Hw; [done|].
  split.
  - destruct (Main.add o) eqn:Ha; [done|]. rewrite Hs in Hw by done.
    rewrite persist_nothing_added in Hw; [done|]. by eapply load_sets_adding_rows.
  - destruct (Main.dry_run o) eqn:Hd; [|done].
    destruct (persist_dry_run H o (TestSets.__tests_sets
                (Main.sets (foldl (Main.visit H E o)
                   {| Main.sets := TestSets.new l; Main.to_remove := []; Main.files := fs E;
                      Main.sys := []; Main.out := [] |} (Main.walked H o)))) out0 Hd)
      as [_ Hpw].
    by rewrite Hpw in Hw.
Qed.

(** X12. [main] sends files to the trash only without [--add] and without
    [--dry-run], and writes pattern files only with [--add] and without
    [--dry-run]; with [--add] or [--dry-run] the file system is as it was
    when the loop ends. *)
Theorem effects_by_mode H E o :
  (Main.trash_calls (Main.final_out (Main.main H E o)) ≠ [] →
   Main.add o = false ∧ Main.dry_run o = false)
  ∧ (Main.writes (Main.final_out (Main.main H E o)) ≠ [] →
     Main.add o = true ∧ Main.dry_run o = false)
  ∧ (Main.add o = true ∨ Main.dry_run o = true →
     Main.final_files (Main.main H E o) = fs E).
Proof.
  split; [|split; [apply main_writes_inv|]].
  - intros Ht. destruct (load_sets_cases H o) as [Hnil|(l & Hload & Hne)].
    { by destruct (main_no_sets H E o Hnil) as (? & _). }
    destruct (main_spec H E o l Hload Hne) as (added & out0 & Hc & _ & _ & Htr & _).
    destruct added as [|a added']; [by rewrite Htr in Ht|].
    destruct (Hc a) as (_ & ? & ? & _); [left|done].
  - intros Hmode. destruct (load_sets_cases H o) as [Hnil|(l & Hload & Hne)].
    { by destruct (main_no_sets H E o Hnil) as (_ & _ & ? & _). }
    destruct (main_spec H E o l Hload Hne) as (added & out0 & Hc & _ & _ & _ & Hf & _).
    apply Hf. destruct added as [|a added']; [done|].
    destruct (Hc a) as (_ & ? & ? & _); [left|]. destruct Hmode; congruence.
Qed.

Lemma visit_remove H E o st p :
  Main.add o = false → Main.dry_run o = false →
  let hit := match (TestSets.test (with_fs E (Main.files st)) (Main.sets st) p
                      (Main.sys st)).2 with
             | Ok true => true
             | _ => false
             end in
  Main.to_remove (Main.visit H E o st p) = Main.to_remove st ++ (if hit then [p] else [])
  ∧ Main.trash_calls (Main.out (Main.visit H E o st p))
    = Main.trash_calls (Main.out st) ++ (if hit then [[p]] else [])
  ∧ Main.sets (Main.visit H E o st p) = Main.sets st.
Proof.
  intros Ha Hd. cbv zeta. unfold Main.visit. rewrite Ha, Hd.
  destruct (TestSets.test _ _ _ _) as [tr' [[]|e]]; cbn [snd].
  - destruct (Main.send2trash H _ _) as [files' r].
    cbn [Main.to_remove Main.out Main.sets]. rewrite !trash_calls_app.
    split_and!; try done. destruct r; cbn; by rewrite ?app_nil_r.
  - cbn [Main.to_remove Main.out Main.sets]. by rewrite !app_nil_r.
  - cbn [Main.to_remove Main.out Main.sets]. rewrite trash_calls_app. cbn.
    by rewrite !app_nil_r.
Qed.

Lemma loop_state_S H E o l i p :
  Main.walked H o !! i = Some p →
  loop_state H E o l (S i) = Main.visit H E o (loop_state H E o l i) p.
Proof.
  intros Hi. unfold loop_state. by rewrite (take_S_r _ _ _ Hi), foldl_snoc.
Qed.

Lemma loop_state_end H E o l :
  loop_state H E o l (length (Main.walked H o))
  = foldl (Main.visit H E o)
      {| Main.sets := TestSets.new l; Main.to_remove := []; Main.files := fs E;
         Main.sys := []; Main.out := [] |} (Main.walked H o).
Proof. unfold loop_state. by rewrite firstn_all. Qed.

(** Without [--add] and [--dry-run]: the paths removed so far are those
    that matched at their turn, each sent to the trash on its own. *)
Lemma loop_remove H E o l k :
  Main.add o = false → Main.dry_run o = false →
  k ≤ length (Main.walked H o) →
  Main.sets (loop_state H E o l k) = TestSets.new l
  ∧ Main.to_remove (loop_state H E o l k)
    = omap (λ i, if matches_at H E o l i then Main.walked H o !! i else None) (seq 0 k)
  ∧ Main.trash_calls (Main.out (loop_state H E o l k))
    = (λ p, [p]) <$> Main.to_remove (loop_state H E o l k).
Proof.
  intros Ha Hd. induction k as [|k IH]; intros Hk; [done|].
  destruct IH as (Hs & Hr & Ht); [lia|].
  destruct (lookup_lt_is_Some_2 (Main.walked H o) k) as [p Hp]; [lia|].
  rewrite (loop_state_S _ _ _ _ _ _ Hp).
  destruct (visit_remove H E o (loop_state H E o l k) p Ha Hd) as (Hr' & Ht' & Hs').
  cbv zeta in Hr', Ht'. rewrite Hs in Hr', Ht'.
  assert (HF : omap (λ i, if matches_at H E o l i then Main.walked H o !! i else None) [k]
               = if match (TestSets.test (with_fs E (Main.files (loop_state H E o l k)))
                             (TestSets.new l) p (Main.sys (loop_state H E o l k))).2 with
                    | Ok true => true
                    | _ => false
                    end then [p] else []).
  { cbn [omap list_omap]. unfold matches_at. rewrite Hp.
    by destruct (TestSets.test _ _ _ _).2 as [[]|]. }
  rewrite seq_S, omap_app. cbn [Nat.add].
  rewrite Hs', Hs, Hr', Ht', Ht, Hr, fmap_app, HF.
  split_and!; try done.
  by destruct (TestSets.test _ _ _ _).2 as [[]|].
Qed.

Lemma matches_at_no_sets H E o i : matches_at H E o [] i = false.
Proof. unfold matches_at. by destruct (Main.walked H o !! i). Qed.

Lemma matched_no_sets H E o : matched H E o [] = [].
Proof.
  unfold matched. induction (seq 0 _) as [|i s IH]; [done|].
  cbn [omap list_omap]. by rewrite matches_at_no_sets.
Qed.

(** The calls of [send2trash] a run makes, from the loop and after it. *)
Lemma main_trash_calls H E o l :
  Main.load_sets H o = Ok l → l ≠ [] →
  Main.trash_calls (Main.final_out (Main.main H E o))
  = Main.trash_calls (Main.out (loop_state H E o l (length (Main.walked H o))))
    ++ match Main.to_remove (loop_state H E o l (length (Main.walked H o))) with
       | [] => []
       | r => if Main.dry_run o then [] else [r]
       end.
Proof.
  intros Hload Hne. rewrite loop_state_end. unfold Main.main. rewrite Hload.
  destruct l as [|ts0 l0]; [done|].
  set (st' := foldl (Main.visit H E o) _ (Main.walked H o)).
  unfold Main.trash_batch.
  destruct (Main.to_remove st') as [|a r] eqn:Hr.
  { destruct (Main.persist H o _ (Main.out st')) as [out' r'] eqn:Hp.
    pose proof (persist_trash_calls H o (TestSets.__tests_sets (Main.sets st')) (Main.out st')) as Hpt.
    rewrite Hp in Hpt. cbn [fst] in Hpt. cbn [Main.final_out]. by rewrite Hpt, app_nil_r. }
  destruct (Main.dry_run o).
  { destruct (Main.persist H o _ (Main.out st')) as [out' r'] eqn:Hp.
    pose proof (persist_trash_calls H o (TestSets.__tests_sets (Main.sets st')) (Main.out st')) as Hpt.
    rewrite Hp in Hpt. cbn [fst] in Hpt. cbn [Main.final_out]. by rewrite Hpt, app_nil_r. }
  destruct (Main.send2trash H (Main.files st') (a :: r)) as [files' res].
  assert (Hcases :
    (match res with
     | None | Some (OSError _) => None
     | Some e => Some e
     end = None) ∨ ∃ e, (match res with
     | None | Some (OSError _) => None
     | Some e => Some e
     end = Some e)).
  { destruct res as [[]|]; eauto. }
  destruct Hcases as [->|[e ->]].
  - cbn [Main.sets Main.out].
    destruct (Main.persist H o _ _) as [out' r'] eqn:Hp.
    pose proof (persist_trash_calls H o (TestSets.__tests_sets (Main.sets st'))
                  (Main.out st' ++ [Main.Send2trash (a :: r)])) as Hpt.
    rewrite Hp in Hpt. cbn [fst] in Hpt. cbn [Main.final_out].
    by rewrite Hpt, trash_calls_app.
  - cbn [Main.final_out Main.out]. by rewrite trash_calls_app.
Qed.

Lemma main_trash_calls_matched H E o :
  Main.trash_calls (Main.final_out (Main.main H E o))
  = match Main.load_sets H o with
    | Ok l =>
        if Main.add o || Main.dry_run o then []
        else ((λ p, [p]) <$> matched H E o l)
             ++ (if decide (matched H E o l = []) then [] else [matched H E o l])
    | Raise _ => []
    end.
Proof.
  destruct (load_sets_cases H o) as [Hnil|(l & Hload & Hne)].
  { destruct (main_no_sets H E o Hnil) as (-> & _).
    destruct (Main.load_sets H o) as [l|e]; [|done].
    rewrite (Hnil l eq_refl), matched_no_sets. by destruct (_ || _). }
  rewrite (main_trash_calls H E o l Hload Hne), Hload.
  destruct (Main.add o || Main.dry_run o) eqn:Hmode.
  - rewrite loop_state_end.
    destruct (loop_spec H E o (Main.walked H o)
                {| Main.sets := TestSets.new l; Main.to_remove := []; Main.files := fs E;
                   Main.sys := []; Main.out := [] |})
      as (added & Hr & Ht & _ & Hc & _).
    cbv zeta in Hr, Ht, Hc.
    destruct added as [|a added'].
    + rewrite Hr, Ht. done.
    + destruct (Hc a) as (_ & Ha & Hd & _); [left|]. by rewrite Ha, Hd in Hmode.
  - apply orb_false_iff in Hmode as [Ha Hd].
    destruct (loop_remove H E o l (length (Main.walked H o)) Ha Hd) as (_ & Hr & Ht);
      [done|].
    rewrite Ht, Hr, Hd. fold (matched H E o l).
    destruct (matched H E o l); [done|]. by rewrite decide_False.
Qed.

(** X14. The calls [main] makes to [send2trash]. There is none with
    [--add] or [--dry-run], or when loading the sets fails. Otherwise there
    is one call for each path of the walk on which [TestSets.test] returned
    [True] at its turn, in the order of the walk, and then, if there was
    one, one more call with the list of all of them. *)
Theorem removed_files_are_trashed_again H E o :
  Main.trash_calls (Main.final_out (Main.main H E o))
  = match Main.load_sets H o with
    | Ok l =>
        if Main.add o || Main.dry_run o then []
        else ((λ p, [p]) <$> matched H E o l)
             ++ (if decide (matched H E o l = []) then [] else [matched H E o l])
    | Raise _ => []
    end.
Proof.
  rewrite main_trash_calls_matched. destruct (Main.load_sets H o); reflexivity.
Qed.

Lemma elem_of_matched H E o l p :
  p ∈ matched H E o l ↔
  ∃ i, Main.walked H o !! i = Some p
       ∧ (TestSets.test (with_fs E (Main.files (loop_state H E o l i)))
            (TestSets.new l) p (Main.sys (loop_state H E o l i))).2 = Ok true.
Proof.
  unfold matched. rewrite list_elem_of_omap. split.
  - intros (i & _ & Hi). unfold matches_at in Hi.
    destruct (Main.walked H o !! i) as [q|] eqn:Hq; [|done].
    destruct (TestSets.test _ _ _ _).2 as [[]|] eqn:Ht; try done.
    injection Hi as ->. eauto.
  - intros (i & Hi & Ht). exists i. split.
    + apply elem_of_seq. split; [lia|]. apply lookup_lt_Some in Hi. lia.
    + unfold matches_at. by rewrite Hi, Ht.
Qed.

(** X13. Every path [main] passes to [send2trash], alone or in the final
    list, was visited by the walk, and [TestSets.test] on the sets loaded
    returned [True] for it when the loop reached it, on the file system as
    the loop had left it by then. *)
Theorem only_matches_are_trashed H E o ps p :
  ps ∈ Main.trash_calls (Main.final_out (Main.main H E o)) → p ∈ ps →
  ∃ l i, Main.load_sets H o = Ok l
         ∧ Main.walked H o !! i = Some p
         ∧ (TestSets.test (with_fs E (Main.files (loop_state H E o l i)))
              (TestSets.new l) p (Main.sys (loop_state H E o l i))).2 = Ok true.
Proof.
  rewrite main_trash_calls_matched. intros Hps Hp.
  destruct (Main.load_sets H o) as [l|e]; [|by apply elem_of_nil in Hps].
  destruct (Main.add o || Main.dry_run o); [by apply elem_of_nil in Hps|].
  assert (p ∈ matched H E o l) as Hin.
  { apply elem_of_app in Hps as [Hps|Hps].
    - apply list_elem_of_fmap in Hps as (q & -> & Hq).
      by apply list_elem_of_singleton in Hp as ->.
    - case_decide; [by apply elem_of_nil in Hps|].
      by apply list_elem_of_singleton in Hps as ->. }
  apply elem_of_matched in Hin as (i & Hi & Ht). eauto.
Qed.

Lemma only_matches_are_trashed_witness :
  ∃ l i, Main.load_sets sample_host remove_by_name = Ok l
         ∧ Main.walked sample_host remove_by_name !! i = Some "/tmp/abc.txt"
         ∧ (TestSets.test
              (with_fs small_pieces
                 (Main.files (loop_state sample_host small_pieces remove_by_name l i)))
              (TestSets.new l) "/tmp/abc.txt"
              (Main.sys (loop_state sample_host small_pieces remove_by_name l i))).2
           = Ok true.
Proof.
  apply (only_matches_are_trashed sample_host small_pieces remove_by_name ["/tmp/abc.txt"]).
  - vm_compute. left.
  - left.
Defined.

Lemma load_sets_missing H o v c l :
  (Some v, c) ∈ [(Main.name o, NameTestSet); (Main.iname o, INameTestSet);
                 (Main.sha1 o, Sha1TestSet); (Main.gcid o, GcidTestSet)] →
  v ≠ EmptyString → Main.isfile H v = false →
  Main.load_sets H o = Ok l → TestSet.new c v [] ∈ l.
Proof.
  intros Hv Hne Hf Hload.
  destruct (load_sets_Ok_inv H o l Hload)
    as (p1 & p2 & p3 & p4 & p5 & -> & H1 & H2 & H3 & H4 & _).
  repeat (apply elem_of_cons in Hv as [Hv|Hv]); [| | | |by apply elem_of_nil in Hv].
  - injection Hv as Hv ->. rewrite <- Hv, load_from_missing in H1 by done.
    injection H1 as <-. apply elem_of_app. left. left.
  - injection Hv as Hv ->. rewrite <- Hv, load_from_missing in H2 by done.
    injection H2 as <-. apply elem_of_app. right. apply elem_of_app. left. left.
  - injection Hv as Hv ->. rewrite <- Hv, load_from_missing in H3 by done.
    injection H3 as <-. do 2 (apply elem_of_app; right). apply elem_of_app. left. left.
  - injection Hv as Hv ->. rewrite <- Hv, load_from_missing in H4 by done.
    injection H4 as <-. do 3 (apply elem_of_app; right). apply elem_of_app. left. left.
Qed.

(** X15. When [--name], [--iname], [--sha1] or [--gcid] names a file that
    does not exist, the sets loaded hold a set of that class built from no
    line, which accepts nothing, and the run makes no call to
    [send2trash]. *)
Theorem missing_pattern_file_removes_nothing H E o v c :
  (Some v, c) ∈ [(Main.name o, NameTestSet); (Main.iname o, INameTestSet);
                 (Main.sha1 o, Sha1TestSet); (Main.gcid o, GcidTestSet)] →
  v ≠ EmptyString → Main.isfile H v = false →
  (∀ l, Main.load_sets H o = Ok l → TestSet.new c v [] ∈ l)
  ∧ TestSet._dataset (TestSet.new c v []) = ∅
  ∧ Main.trash_calls (Main.final_out (Main.main H E o)) = [].
Proof.
  intros Hv Hne Hf. split; [|split; [apply dataset_new_nil|]].
  { intros l. by apply load_sets_missing. }
  destruct (load_sets_cases H o) as [Hnil|(l & Hload & Hnel)].
  { by destruct (main_no_sets H E o Hnil) as (? & _). }
  pose proof (load_sets_missing H o v c l Hv Hne Hf Hload) as Hts.
  destruct (main_spec H E o l Hload Hnel) as (added & out0 & Hc & _ & _ & Htr & _).
  assert (added = []) as ->.
  { destruct added as [|a added']; [done|]. exfalso.
    destruct (Hc a) as (_ & _ & _ & m & tr & Htest); [left|].
    destruct (TestSets.test (with_fs E m) (TestSets.new l) a tr) as [tr' r] eqn:Ht.
    cbn in Htest. subst r.
    destruct (test_true_inv _ _ _ _ _ Ht _ Hts) as [ctx Hctx].
    unfold TestSet.test in Hctx.
    destruct (TestSet._read_value (TestSet.new c v []) ctx) as [x|e]; [|done].
    cbn [mbind result_bind] in Hctx. injection Hctx as Hx.
    apply bool_decide_eq_true in Hx.
    change (x ∈ TestSet._dataset (TestSet.new c v [])) in Hx.
    rewrite dataset_new_nil in Hx.
    by apply not_elem_of_empty in Hx. }
  by rewrite Htr.
Qed.

Lemma missing_pattern_file_removes_nothing_witness :
  (∀ l, Main.load_sets sample_host remove_by_missing = Ok l →
        TestSet.new NameTestSet "missing.txt" [] ∈ l)
  ∧ TestSet._dataset (TestSet.new NameTestSet "missing.txt" []) = ∅
  ∧ Main.trash_calls (Main.final_out (Main.main sample_host small_pieces remove_by_missing))
    = [].
Proof.
  apply (missing_pattern_file_removes_nothing sample_host small_pieces remove_by_missing
           "missing.txt" NameTestSet).
  - left.
  - discriminate.
  - reflexivity.
Defined.


Lemma path_join_nonempty a b : b ≠ EmptyString → path_join a b ≠ EmptyString.
Proof.
  intros Hb. unfold path_join. destruct (startswith_sep b); [done|].
  destruct (_ || _); destruct a; cbn; done.
Qed.

Lemma is_gcid_new c v lines :
  is_gcid (TestSet.new c v lines) = bool_decide (c = GcidTestSet).
Proof. by destruct c. Qed.



(** X17. [main] finds no pattern set exactly when none of [--name],
    [--iname], [--sha1], [--gcid] has a non-empty value and, if
    [--from-dir] has one, none of the four files is in that directory;
    it then prints 'No pattern input.' and does nothing else. *)
Theorem no_pattern_input H E o :
  (Main.load_sets H o = Ok [] ↔
   given (Main.name o) = false ∧ given (Main.iname o) = false
   ∧ given (Main.sha1 o) = false ∧ given (Main.gcid o) = false
   ∧ (given (Main.from_dir o) = true →
      ∀ d, Main.from_dir o = Some d →
           Forall (λ f, Main.isfile H (path_join d f) = false)
                  ["name.txt"; "iname.txt"; "sha1.txt"; "gcid.txt"]))
  ∧ (Main.load_sets H o = Ok [] →
     Main.main H E o
     = {| Main.final_sets := []; Main.final_files := fs E; Main.final_sys := [];
          Main.final_out := [Main.EchoErr "No pattern input."];
          Main.raised := None |}).
Proof.
  split; [split|].
  - intros (p1 & p2 & p3 & p4 & p5 & Hl & H1 & H2 & H3 & H4 & H5)%load_sets_Ok_inv.
    symmetry in Hl.
    apply app_eq_nil in Hl as [-> Hl]. apply app_eq_nil in Hl as [-> Hl].
    apply app_eq_nil in Hl as [-> Hl]. apply app_eq_nil in Hl as [-> ->].
    assert (Hexp : ∀ value c, Main.load_from H value c true [] = Ok [] → given value = false).
    { intros value c Hload. destruct (given value) eqn:Hg; [|done].
      by destruct (load_from_by_file H value c [] Hg Hload). }
    split_and!; try (by eapply Hexp).
    intros Hg d Hd. rewrite Hg in H5.
    destruct H5 as (d' & q1 & q2 & q3 & q4 & Hd' & Hq & G1 & G2 & G3 & G4).
    rewrite Hd in Hd'. injection Hd' as <-. symmetry in Hq.
    apply app_eq_nil in Hq as [-> Hq]. apply app_eq_nil in Hq as [-> Hq].
    apply app_eq_nil in Hq as [-> ->].
    assert (Hdir : ∀ f c, f ≠ EmptyString →
              Main.load_from H (Some (path_join d f)) c false [] = Ok [] →
              Main.isfile H (path_join d f) = false).
    { intros f c Hf Hload. destruct (load_from_dir _ _ _ _ Hload) as [_ Hne].
      destruct (Main.isfile H (path_join d f)); [|done].
      destruct Hne; [by apply path_join_nonempty|done|done]. }
    repeat constructor; by eapply Hdir.
  - intros (H1 & H2 & H3 & H4 & H5). unfold Main.load_sets.
    rewrite (load_from_not_given_any _ _ _ _ _ H1). cbn [mbind result_bind].
    rewrite (load_from_not_given_any _ _ _ _ _ H2). cbn [mbind result_bind].
    rewrite (load_from_not_given_any _ _ _ _ _ H3). cbn [mbind result_bind].
    rewrite (load_from_not_given_any _ _ _ _ _ H4). cbn [mbind result_bind].
    destruct (Main.from_dir o) as [[|a d]|]; try done.
    specialize (H5 eq_refl _ eq_refl).
    apply Forall_cons in H5 as [G1 H5]. apply Forall_cons in H5 as [G2 H5].
    apply Forall_cons in H5 as [G3 H5]. apply Forall_cons in H5 as [G4 _].
    rewrite (load_from_dir_missing _ _ _ _ G1). cbn [mbind result_bind].
    rewrite (load_from_dir_missing _ _ _ _ G2). cbn [mbind result_bind].
    rewrite (load_from_dir_missing _ _ _ _ G3). cbn [mbind result_bind].
    by rewrite (load_from_dir_missing _ _ _ _ G4).
  - intros Hload. unfold Main.main. by rewrite Hload.
Qed.



(** X19. When every row of a set is one line (not empty, no line
    boundary), the text written for the set is read back, by [read_text]
    and [splitlines], as exactly the rows written. *)
Theorem written_rows_read_back ts :
  Forall (λ v, splitlines v = [v]) (TestSet.all_rows ts) →
  splitlines (translate_newlines false (rows_text ts)) = TestSet.all_rows ts.
Proof. intros Hall. rewrite splitlines_translate. by apply splitlines_join. Qed.

Lemma written_rows_read_back_witness :
  splitlines (translate_newlines false (rows_text names)) = TestSet.all_rows names.
Proof.
  apply (written_rows_read_back names).
  vm_compute. repeat constructor.
Defined.

Lemma lower_length s : String.length (lower s) = String.length s.
Proof. induction s as [|c s IH]; [done|]. cbn. by rewrite IH. Qed.

Lemma lstrip_length s :
  String.length (lstrip s) ≤ String.length s
  ∧ (String.length (lstrip s) = String.length s → lstrip s = s).
Proof.
  induction s as [|c s [IH1 IH2]]; [done|]. cbn [lstrip].
  destruct (isspace c); [|done]. cbn [String.length]. split; [lia|]. intros ?. lia.
Qed.

Lemma rstrip_length s :
  String.length (rstrip s) ≤ String.length s
  ∧ (String.length (rstrip s) = String.length s → rstrip s = s).
Proof.
  induction s as [|c s [IH1 IH2]]; [done|]. cbn [rstrip].
  destruct (rstrip s) as [|c' r] eqn:Hr.
  - destruct (isspace c); cbn in *; split; try lia.
    intros Hlen. destruct s; [done|]. cbn in Hlen. lia.
  - cbn in *. split; [lia|]. intros Hlen. rewrite IH2; [done|lia].
Qed.

Lemma strip_length s :
  String.length (strip s) = String.length s → strip s = s.
Proof.
  unfold strip. intros Hlen.
  destruct (lstrip_length s) as [Hl1 Hl2]. destruct (rstrip_length (lstrip s)) as [Hr1 Hr2].
  rewrite Hr2 by lia. apply Hl2. lia.
Qed.

Lemma lower_strip_fixed s : lower (strip s) = lower s → strip s = s.
Proof.
  intros H. apply strip_length. by rewrite <- (lower_length (strip s)), H, lower_length.
Qed.

(** X20. A name set, with whatever seeds and after whatever [add] calls,
    never accepts a path whose base name is empty or has white space at
    either end. *)
Theorem padded_name_never_matches c nm lines ctxs p :
  c = NameTestSet ∨ c = INameTestSet →
  strip (basename p) ≠ basename p ∨ basename p = EmptyString →
  TestSet.test (foldl TestSet.after_add (TestSet.new c nm lines) ctxs) (TestContext_new p)
  = Ok false.
Proof.
  intros Hc Hpad.
  destruct (foldl_after_add_fields c nm lines ctxs) as [Hcls Hd]. cbv zeta in *.
  unfold TestContext_new. rewrite test_metadata_value.
  2: { unfold TestSet.is_test_content. rewrite Hcls. destruct Hc as [-> | ->]; cbn; tauto. }
  rewrite Hcls, Hd. f_equal. apply bool_decide_eq_false. intros Hin.
  apply seed_form_dataset in Hin as [Hne Hseed]. unfold seed_form in Hseed.
  destruct Hc as [-> | ->]; cbn in Hseed, Hne.
  - destruct Hpad as [Hpad|Hpad]; [done|]. by rewrite Hpad in Hne.
  - rewrite <- lower_strip, lower_idemp in Hseed. apply lower_strip_fixed in Hseed.
    destruct Hpad as [Hpad|Hpad]; [done|]. by rewrite Hpad in Hne.
Qed.

Lemma padded_name_never_matches_witness :
  TestSet.test (foldl TestSet.after_add (TestSet.new NameTestSet "name.txt" [" abc.txt"])
                  [TestContext_new "/tmp/ abc.txt"])
    (TestContext_new "/tmp/ abc.txt")
  = Ok false.
Proof.
  apply (padded_name_never_matches NameTestSet "name.txt" [" abc.txt"]
           [TestContext_new "/tmp/ abc.txt"] "/tmp/ abc.txt").
  - by left.
  - left. vm_compute. discriminate.
Defined.

(** ** A later run *)

Lemma result_bind_Ok {A} (m : result A) : (m ≫= Ok) = m.
Proof. by destruct m. Qed.


































